(** * BMI calculator: the two screens of [src/app/index.tsx]

    The source file holds two variants of one screen:
    - lines 1-364: the dark screen, animated with react-native-reanimated
      (module [Dark] below);
    - lines 365-738: the light screen, animated with React Native's
      [Animated] (module [Light] below).

    Both are embedded function by function.  JavaScript numbers are the
    binary64 floats of the kernel ([PrimFloat.float]); JavaScript strings are
    lists of UTF-16 code units.  The built-ins the source calls
    ([String.prototype.replace], [trim], [Number], [Number.isFinite],
    [Math.max], [Math.min], [Math.round], [Number.prototype.toFixed]) are
    modelled in module [JS] after ECMA-262. *)

From Stdlib Require Import ZArith NArith Lia Bool List String Ascii.
From Stdlib Require Import Floats.
From Stdlib Require DecimalN.
Import ListNotations.
Set Warnings "-register-all".

(* ===================================================================== *)
(** * The JavaScript values and built-ins used by the source              *)
(* ===================================================================== *)

Module JS.

(** A JavaScript number is an IEEE 754 binary64 value. *)
Definition number : Set := float.

(** A JavaScript string is a sequence of UTF-16 code units. *)
Definition code_unit : Set := N.
Definition jsstring : Set := list code_unit.

(** ** String literals

    The literals of the source are written here as Rocq strings, which are
    byte strings holding UTF-8; [utf16] decodes them into code units (the
    range labels of the source contain U+2013 and U+2265). *)

Fixpoint utf16 (bs : list N) : jsstring :=
  match bs with
  | [] => []
  | b0 :: r0 =>
    if (b0 <? 0x80)%N then b0 :: utf16 r0
    else
      match r0 with
      | [] => [b0]
      | b1 :: r1 =>
        if (b0 <? 0xE0)%N then ((b0 mod 0x20) * 0x40 + b1 mod 0x40)%N :: utf16 r1
        else
          match r1 with
          | [] => [b0; b1]
          | b2 :: r2 =>
            if (b0 <? 0xF0)%N
            then ((b0 mod 0x10) * 0x1000 + (b1 mod 0x40) * 0x40 + b2 mod 0x40)%N :: utf16 r2
            else
              match r2 with
              | [] => [b0; b1; b2]
              | b3 :: r3 =>
                let cp := ((b0 mod 0x08) * 0x40000 + (b1 mod 0x40) * 0x1000
                           + (b2 mod 0x40) * 0x40 + b3 mod 0x40)%N in
                let v := (cp - 0x10000)%N in
                (0xD800 + v / 0x400)%N :: (0xDC00 + v mod 0x400)%N :: utf16 r3
              end
          end
      end
  end.

Definition str (s : string) : jsstring :=
  utf16 (map N_of_ascii (list_ascii_of_string s)).

Fixpoint jsstring_eqb (a b : jsstring) : bool :=
  match a, b with
  | [], [] => true
  | x :: a', y :: b' => (x =? y)%N && jsstring_eqb a' b'
  | _, _ => false
  end.

(** The code units the source and the numeric grammar name. *)
Definition comma : code_unit := 44%N.
Definition period : code_unit := 46%N.
Definition plus_sign : code_unit := 43%N.
Definition minus_sign : code_unit := 45%N.

(** ** [String.prototype.trim] (ECMA-262 22.1.3.32)

    White space is WhiteSpace and LineTerminator of the lexical grammar:
    TAB, LF, VT, FF, CR, SP, NBSP, U+1680, U+2000..U+200A, LS, PS, U+202F,
    U+205F, U+3000 and the byte order mark. *)

Definition isWhiteSpace (c : code_unit) : bool :=
  existsb (N.eqb c)
    [0x09; 0x0A; 0x0B; 0x0C; 0x0D; 0x20; 0xA0; 0x1680; 0x2028; 0x2029;
     0x202F; 0x205F; 0x3000; 0xFEFF]%N
  || ((0x2000 <=? c)%N && (c <=? 0x200A)%N).

Fixpoint trimStart (s : jsstring) : jsstring :=
  match s with
  | [] => []
  | c :: t => if isWhiteSpace c then trimStart t else s
  end.

Definition trimEnd (s : jsstring) : jsstring := rev (trimStart (rev s)).

Definition trim (s : jsstring) : jsstring := trimEnd (trimStart s).

(** ** [String.prototype.replace] with a string pattern (22.1.3.19)

    Only the first occurrence of the pattern is replaced.  The replacement
    strings of the source hold no [$], so the substitution is the replacement
    text itself. *)

Fixpoint startsWith (p s : jsstring) : bool :=
  match p, s with
  | [], _ => true
  | _ :: _, [] => false
  | a :: p', b :: s' => (a =? b)%N && startsWith p' s'
  end.

Fixpoint replace (s pattern replacement : jsstring) : jsstring :=
  if startsWith pattern s then replacement ++ skipn (List.length pattern) s
  else
    match s with
    | [] => []
    | c :: t => c :: replace t pattern replacement
    end.

(** ** Rounding an exact value to a number (6.1.6.1)

    [round_ratio neg n d] is the number nearest to [n / d] (ties to even,
    overflow to infinity), negated when [neg]; [0 <= n] and [0 < d]. *)

Definition round_ratio (neg : bool) (n d : Z) : spec_float :=
  match n with
  | Z0 => S754_zero neg
  | _ =>
    let '(q, e, l) := SFdiv_core_binary prec emax n 0 d 0 in
    binary_round_aux prec emax neg q e l
  end.

Definition round_integer (z : Z) : spec_float := binary_normalize prec emax z 0 false.

(** ** [Number(string)]: StringToNumber (7.1.4.1.1)

    StringNumericLiteral is optional white space around a StrNumericLiteral:
    a binary, octal or hexadecimal integer literal, or an optionally signed
    [Infinity] or decimal literal with optional fraction and exponent.  The
    empty literal is [+0]; text outside the grammar is [NaN]. *)

Definition digitValue (radix : N) (c : code_unit) : option N :=
  let v :=
    if (48 <=? c)%N && (c <=? 57)%N then Some (c - 48)%N
    else if (97 <=? c)%N && (c <=? 102)%N then Some (c - 87)%N
    else if (65 <=? c)%N && (c <=? 70)%N then Some (c - 55)%N
    else None in
  match v with
  | Some d => if (d <? radix)%N then Some d else None
  | None => None
  end.

Definition isDecimalDigit (c : code_unit) : bool := (48 <=? c)%N && (c <=? 57)%N.

(** The value of a run of digits, or [None] when a code unit is no digit. *)
Fixpoint digits (radix : N) (acc : N) (s : jsstring) : option N :=
  match s with
  | [] => Some acc
  | c :: t =>
    match digitValue radix c with
    | Some d => digits radix (acc * radix + d)%N t
    | None => None
    end
  end.

Fixpoint span (p : code_unit -> bool) (s : jsstring) : jsstring * jsstring :=
  match s with
  | [] => ([], [])
  | c :: t => if p c then let '(a, b) := span p t in (c :: a, b) else ([], s)
  end.

(** An optional sign: whether it is [-], and the rest. *)
Definition signed (s : jsstring) : bool * jsstring :=
  match s with
  | c :: r =>
    if (c =? plus_sign)%N then (false, r)
    else if (c =? minus_sign)%N then (true, r)
    else (false, s)
  | [] => (false, s)
  end.

(** ExponentPart, optional: [e] or [E], an optional sign, one digit or more. *)
Definition ExponentPart (s : jsstring) : option Z :=
  match s with
  | [] => Some 0%Z
  | c :: r =>
    if (c =? 101)%N || (c =? 69)%N then
      let '(neg, ds) := signed r in
      match ds with
      | [] => None
      | _ :: _ =>
        match digits 10 0 ds with
        | Some v => Some (if neg then (- Z.of_N v)%Z else Z.of_N v)
        | None => None
        end
      end
    else None
  end.

(** The number for the decimal value [m * 10 ^ x]: the exact value, rounded
    once.  (For a literal of more than 20 significant digits ECMA-262 also
    allows rounding from the first 20; the engines round the exact value.) *)
Definition decimal_value (neg : bool) (m : N) (x : Z) : number :=
  SF2Prim
    (if (0 <=? x)%Z then round_ratio neg (Z.of_N m * 10 ^ x) 1
     else round_ratio neg (Z.of_N m) (10 ^ (- x))).

Definition StrUnsignedDecimalLiteral (neg : bool) (u : jsstring) : option number :=
  let '(ip, r1) := span isDecimalDigit u in
  let '(fp, r2) :=
    match r1 with
    | c :: r => if (c =? period)%N then span isDecimalDigit r else ([], r1)
    | [] => ([], r1)
    end in
  match ip ++ fp with
  | [] => None
  | ds =>
    match digits 10 0 ds, ExponentPart r2 with
    | Some m, Some x => Some (decimal_value neg m (x - Z.of_nat (List.length fp)))
    | _, _ => None
    end
  end.

Definition StrDecimalLiteral (t : jsstring) : option number :=
  let '(neg, u) := signed t in
  if jsstring_eqb u (str "Infinity")
  then Some (if neg then neg_infinity else infinity)
  else StrUnsignedDecimalLiteral neg u.

Definition NonDecimalIntegerLiteral (t : jsstring) : option number :=
  match t with
  | z :: c :: ds =>
    let radix :=
      if (c =? 98)%N || (c =? 66)%N then Some 2%N
      else if (c =? 111)%N || (c =? 79)%N then Some 8%N
      else if (c =? 120)%N || (c =? 88)%N then Some 16%N
      else None in
    match (z =? 48)%N, radix, ds with
    | true, Some r, _ :: _ =>
      match digits r 0 ds with
      | Some v => Some (SF2Prim (round_integer (Z.of_N v)))
      | None => None
      end
    | _, _, _ => None
    end
  | _ => None
  end.

Definition StrNumericLiteral (t : jsstring) : option number :=
  match NonDecimalIntegerLiteral t with
  | Some v => Some v
  | None => StrDecimalLiteral t
  end.

Definition Number (s : jsstring) : number :=
  match trim s with
  | [] => 0%float
  | t => match StrNumericLiteral t with Some v => v | None => nan end
  end.

(** ** [Number.isFinite] (21.1.2.2) *)
Definition Number_isFinite (v : number) : bool :=
  negb (is_nan v) && negb (is_infinity v).

(** ** [Math.max] and [Math.min] of two arguments (21.3.2.24, 21.3.2.25)

    The result is [NaN] when an argument is; [+0] counts as larger than
    [-0]. *)

Definition is_pos_zero (x : number) : bool := is_zero x && negb (get_sign x).
Definition is_neg_zero (x : number) : bool := is_zero x && get_sign x.

Definition Math_max (a b : number) : number :=
  if is_nan a || is_nan b then nan
  else if (is_pos_zero b && is_neg_zero a) || (a <? b)%float then b
  else a.

Definition Math_min (a b : number) : number :=
  if is_nan a || is_nan b then nan
  else if (is_neg_zero b && is_pos_zero a) || (b <? a)%float then b
  else a.

(** ** [Math.round] (21.3.2.28)

    The integral number closest to [x], the one nearer to +infinity when two
    are as close; [-0] for [-0.5 <= x < 0] and for [-0]. *)

Definition Math_round (x : number) : number :=
  match Prim2SF x with
  | S754_finite s m e =>
    if (0 <=? e)%Z then x
    else
      let r := ((2 * cond_Zopp s (Zpos m) + 2 ^ (- e)) / 2 ^ (1 - e))%Z in
      if (r =? 0)%Z then (if s then neg_zero else zero)
      else SF2Prim (round_integer r)
  | _ => x
  end.

(** ** Decimal digits of a natural number *)

Fixpoint digits_of_uint (u : Decimal.uint) : jsstring :=
  match u with
  | Decimal.Nil => []
  | Decimal.D0 r => 48%N :: digits_of_uint r
  | Decimal.D1 r => 49%N :: digits_of_uint r
  | Decimal.D2 r => 50%N :: digits_of_uint r
  | Decimal.D3 r => 51%N :: digits_of_uint r
  | Decimal.D4 r => 52%N :: digits_of_uint r
  | Decimal.D5 r => 53%N :: digits_of_uint r
  | Decimal.D6 r => 54%N :: digits_of_uint r
  | Decimal.D7 r => 55%N :: digits_of_uint r
  | Decimal.D8 r => 56%N :: digits_of_uint r
  | Decimal.D9 r => 57%N :: digits_of_uint r
  end.

Definition decimal (n : Z) : jsstring := digits_of_uint (N.to_uint (Z.to_N n)).

(** ** [Number::toString] in radix 10, for a number [m * 2 ^ e >= 10 ^ 21]
    (6.1.6.1.20)

    The digits are those of the shortest [s] (of [k] digits) for which
    [s * 10 ^ (n - k)] rounds to the number, the closest such [s], the even
    one on a tie; as [n > 21] the result is in exponent form. *)

Definition shortest_candidates (X : Z) (k L : Z) : list (Z * Z) :=
  filter
    (fun '(s, n) =>
       (10 ^ (k - 1) <=? s)%Z && (s <? 10 ^ k)%Z
       && SFeqb (round_integer (s * 10 ^ (n - k))) (round_integer X))
    (flat_map
       (fun n => let s := (X / 10 ^ (n - k))%Z in [(s, n); ((s + 1)%Z, n)])
       [L; (L + 1)%Z]).

Definition closer (X k : Z) (a b : Z * Z) : Z * Z :=
  let dist := fun '(s, n) => Z.abs (s * 10 ^ (n - k) - X) in
  if (dist b <? dist a)%Z then b
  else if (dist b =? dist a)%Z && Z.even (fst b) then b
  else a.

Fixpoint shortest (X L : Z) (ks : list Z) : option (Z * Z * Z) :=
  match ks with
  | [] => None
  | k :: ks' =>
    match shortest_candidates X k L with
    | [] => shortest X L ks'
    | c :: cs => let '(s, n) := fold_left (closer X k) cs c in Some (s, k, n)
    end
  end.

Definition Number_toString_large (m : positive) (e : Z) : jsstring :=
  let X := Z.shiftl (Zpos m) e in
  let L := Z.of_nat (List.length (decimal X)) in
  match shortest X L (map Z.of_nat (seq 1 17)) with
  | Some (s, k, n) =>
    match decimal s with
    | d :: rest =>
      (d :: match rest with [] => [] | _ :: _ => period :: rest end)
        ++ str "e+" ++ decimal (n - 1)
    | [] => []
    end
  | None => []
  end.

(** ** [Number.prototype.toFixed] (21.1.3.3) *)

(** The digits of [n] with a point before the last [f] of them. *)
Definition fixed_digits (n : Z) (f : N) : jsstring :=
  let m := decimal n in
  if (f =? 0)%N then m
  else
    let f := N.to_nat f in
    let m := repeat 48%N (f + 1 - List.length m) ++ m in
    let k := List.length m in
    firstn (k - f) m ++ period :: skipn (k - f) m.

(** The integer nearest to [m * 2 ^ e * 10 ^ f], the larger of two. *)
Definition nearest_scaled (m : positive) (e : Z) (f : N) : Z :=
  let v := (Zpos m * 10 ^ Z.of_N f)%Z in
  if (0 <=? e)%Z then (v * 2 ^ e)%Z
  else ((2 * v + 2 ^ (- e)) / 2 ^ (1 - e))%Z.

Definition toFixed (x : number) (fractionDigits : N) : jsstring :=
  match Prim2SF x with
  | S754_nan => str "NaN"
  | S754_infinity s => if s then str "-Infinity" else str "Infinity"
  | S754_zero _ => fixed_digits 0 fractionDigits
  | S754_finite s m e =>
    (if s then [minus_sign] else [])
      ++ (if (10 ^ 21 <=? Z.shiftl (Zpos m) e)%Z
          then Number_toString_large m e
          else fixed_digits (nearest_scaled m e fractionDigits) fractionDigits)
  end.

End JS.

(** [x > y] and [x < y] of the source, and the number a nullable operand
    stands for in a comparison or in arithmetic ([null] is [+0], 7.1.4). *)
Definition gt (x y : JS.number) : bool := (y <? x)%float.
Definition lt (x y : JS.number) : bool := (x <? y)%float.

Definition ToNumber (v : option JS.number) : JS.number :=
  match v with Some x => x | None => 0%float end.

Definition notNull {A : Type} (v : option A) : bool :=
  match v with Some _ => true | None => false end.

(** The [label] field of [BmiCategory] is the union of four string literals,
    the same union in both screens. *)
Inductive Label : Set := Underweight | Normal | Overweight | Obese.

(** ** The vocabulary of the specification

    The source has no [evaluate] function and no display-state variable: the
    validity test and the arithmetic are the first half of [onCalculate], and
    the screen keeps [bmi : number | null].  [EvaluationOutcome] and
    [DisplayState] name what each screen's [evaluate] and [display] (below,
    one per screen) read off its handlers. *)

Inductive EvaluationOutcome (C : Set) : Set :=
| Rejected
| Accepted (value : JS.number) (category : C) (scalePosition : JS.number).
Arguments Rejected {C}.
Arguments Accepted {C} value category scalePosition.

Inductive DisplayState (C : Set) : Set :=
| Idle
| Invalid
| Result (value : JS.number) (category : C).
Arguments Idle {C}.
Arguments Invalid {C}.
Arguments Result {C} value category.

(** [clamp x lo hi], by cases. *)
Definition clamp (x lo hi : JS.number) : JS.number :=
  if (x <=? lo)%float then lo
  else if (hi <=? x)%float then hi
  else x.

(** Lines 148 and 495: how far the indicator (16 wide) can travel along a bar
    of width [barWidth]; the upper end of the range its position is clamped
    to on the dark screen, and interpolated over on the light one. *)
Definition indicatorTravel (barWidth : JS.number) : JS.number :=
  JS.Math_max 0%float (barWidth - 16)%float.

(** A leg of a shake: the displacement it moves to, and its duration in
    milliseconds. *)
Definition leg : Set := (JS.number * JS.number)%type.

Definition total_duration (l : list leg) : JS.number :=
  fold_left (fun acc x => (acc + snd x)%float) l 0%float.

(** Consecutive displacements have opposite signs, until the rest at 0. *)
Fixpoint alternates (l : list leg) : bool :=
  match l with
  | a :: ((b :: _) as t) =>
    ((fst a * fst b <? 0)%float || (fst b =? 0)%float) && alternates t
  | _ => true
  end.

(** No displacement is larger in magnitude than the one before it. *)
Fixpoint magnitudes_fall (l : list leg) : bool :=
  match l with
  | a :: ((b :: _) as t) => (abs (fst b) <=? abs (fst a))%float && magnitudes_fall t
  | _ => true
  end.

(* ===================================================================== *)
(** * The dark screen (lines 1-364), on react-native-reanimated           *)
(* ===================================================================== *)

Module Dark.
Import JS.
Local Open Scope float_scope.

Record BmiCategory : Set := {
  label : Label;
  rangeLabel : jsstring;
  hint : jsstring;
  colorClass : jsstring
}.

(** Lines 35-41. *)
Definition parseNumber (input : jsstring) : option number :=
  let normalized := trim (replace input (str ",") (str ".")) in
  match normalized with
  | [] => None
  | _ :: _ =>
    let value := Number normalized in
    if negb (Number_isFinite value) then None
    else Some value
  end.

(** Lines 43-77. *)
Definition getBmiCategory (bmi : number) : BmiCategory :=
  if lt bmi 18.5 then
    {| label := Underweight;
       rangeLabel := str "< 18.5";
       hint := str "Try a nutrient-dense diet and strength training. If unsure, check with a clinician.";
       colorClass := str "text-sky-300" |}
  else if lt bmi 25 then
    {| label := Normal;
       rangeLabel := str "18.5 – 24.9";
       hint := str "Nice! Keep a balanced diet and regular activity to maintain.";
       colorClass := str "text-emerald-300" |}
  else if lt bmi 30 then
    {| label := Overweight;
       rangeLabel := str "25.0 – 29.9";
       hint := str "Consider small, sustainable changes: daily steps, protein-forward meals, and sleep.";
       colorClass := str "text-amber-300" |}
  else
    {| label := Obese;
       rangeLabel := str "≥ 30.0";
       hint := str "A structured plan helps: nutrition, movement, and medical guidance if needed.";
       colorClass := str "text-rose-300" |}.

(** Lines 79-81. *)
Definition round1 (n : number) : jsstring :=
  toFixed (Math_round (n * 10) / 10) 1.

(** ** The component state (lines 84-92)

    [useState] cells are fields of [state]; [barWidth] and the background
    [pulse] are not touched by the handlers and are left out.  The shared
    values are driven by assigning animations to them: a handler returns the
    assignments it makes, in program order. *)

Record state : Set := {
  heightCm : jsstring;
  weightKg : jsstring;
  bmi : option number
}.

Definition initial : state := {| heightCm := []; weightKg := []; bmi := None |}.

Definition setHeightCm (v : jsstring) (st : state) : state :=
  {| heightCm := v; weightKg := weightKg st; bmi := bmi st |}.
Definition setWeightKg (v : jsstring) (st : state) : state :=
  {| heightCm := heightCm st; weightKg := v; bmi := bmi st |}.
Definition setBmi (v : option number) (st : state) : state :=
  {| heightCm := heightCm st; weightKg := weightKg st; bmi := v |}.

Inductive SharedValue : Set := reveal | shakeX | progress.

Inductive EasingFunction : Set :=
| quad | cubic
| Easing_out (f : EasingFunction)
| Easing_inOut (f : EasingFunction).

Inductive animation : Set :=
| withTiming (toValue duration : number) (easing : option EasingFunction)
| withSpring (toValue damping stiffness : number)
| withSequence (steps : list animation).

(** [sv.value = a]. *)
Inductive effect : Set := Assign (sv : SharedValue) (a : animation).

(** Lines 102-105: the memoised values. *)
Definition heightValue (st : state) : option number := parseNumber (heightCm st).
Definition weightValue (st : state) : option number := parseNumber (weightKg st).
Definition category (st : state) : option BmiCategory := option_map getBmiCategory (bmi st).

(** Lines 107-114, and the palette [barFillStyle] and [indicatorStyle]
    interpolate it over (lines 136-140, 149-153). *)
Definition bmiColor (st : state) : number :=
  let v := match bmi st with Some b => b | None => 0 end in
  if (v =? 0) then 0
  else if lt v 18.5 then 0
  else if lt v 25 then 1
  else if lt v 30 then 2
  else 3.

Definition palette : list jsstring :=
  [str "#38bdf8"; str "#34d399"; str "#fbbf24"; str "#fb7185"].

(** Line 312: the text of the result card. *)
Definition bmiText (st : state) : jsstring :=
  match bmi st with None => str "—" | Some b => round1 b end.

(** Lines 160-168. *)
Definition triggerInvalidShake : list effect :=
  [Assign shakeX
     (withSequence
        [withTiming (-10) 60 None;
         withTiming 10 60 None;
         withTiming (-8) 60 None;
         withTiming 8 60 None;
         withTiming 0 60 None])].

(** Lines 174-180, 190-191 and 196: the constants of [onCalculate], as
    functions of what they are computed from. *)
Definition valid (h w : option number) : bool :=
  notNull h && notNull w
  && gt (ToNumber h) 40 && lt (ToNumber h) 260
  && gt (ToNumber w) 10 && lt (ToNumber w) 400.

Definition nextBmi (h w : option number) : number :=
  let heightM := ToNumber h / 100 in
  ToNumber w / (heightM * heightM).

Definition normalized (nextBmi : number) : number :=
  Math_max 0 (Math_min 1 ((nextBmi - 10) / 30)).

(** Lines 170-198. *)
Definition onCalculate (st : state) : state * list effect :=
  let h := heightValue st in
  let w := weightValue st in
  if negb (valid h w) then
    (setBmi None st,
     triggerInvalidShake
       ++ [Assign reveal (withTiming 0 180 None);
           Assign progress (withTiming 0 180 None)])
  else
    (setBmi (Some (nextBmi h w)) st,
     [Assign reveal (withSpring 1 14 140);
      Assign progress
        (withTiming (normalized (nextBmi h w)) 500 (Some (Easing_out cubic)))]).

(** Lines 200-206. *)
Definition onReset (st : state) : state * list effect :=
  (setBmi None (setWeightKg [] (setHeightCm [] st)),
   [Assign reveal (withTiming 0 200 None);
    Assign progress (withTiming 0 200 None)]).

(** ** What the specification calls [evaluate] and the display state *)

(** The outcome [onCalculate] computes from the parsed values (lines
    171-196), with the category the screen derives from the stored value. *)
Definition evaluate (h w : option number) : EvaluationOutcome BmiCategory :=
  if negb (valid h w) then Rejected
  else Accepted (nextBmi h w) (getBmiCategory (nextBmi h w)) (normalized (nextBmi h w)).

(** The legs of the shake a handler emitted, if it emitted one. *)
Definition timing_leg (a : animation) : list leg :=
  match a with
  | withTiming v d _ => [(v, d)]
  | _ => []
  end.

Definition shake_legs (fx : list effect) : list leg :=
  flat_map
    (fun e =>
       match e with
       | Assign shakeX (withSequence steps) => flat_map timing_leg steps
       | _ => []
       end) fx.

(** The screen stores no flag that tells Idle from Invalid: both show no
    result ([bmi] is [null]).  What tells them apart is the shake the handler
    emits, so the display state is read off a handler's result. *)
Definition display (r : state * list effect) : DisplayState BmiCategory :=
  match bmi (fst r) with
  | Some v => Result v (getBmiCategory v)
  | None =>
    match shake_legs (snd r) with
    | [] => Idle
    | _ :: _ => Invalid
    end
  end.

(** The animations a handler starts: every assignment starts one, at once. *)
Definition started (fx : list effect) : list (SharedValue * animation) :=
  map (fun e => match e with Assign sv a => (sv, a) end) fx.

Definition same (a b : SharedValue) : bool :=
  match a, b with
  | reveal, reveal | shakeX, shakeX | progress, progress => true
  | _, _ => false
  end.

(** The values an animation moves to, in order. *)
Fixpoint values (a : animation) : list number :=
  match a with
  | withTiming v _ _ => [v]
  | withSpring v _ _ => [v]
  | withSequence steps => flat_map values steps
  end.

(** The values a handler drives the shared value [sv] to, in order. *)
Definition targets (sv : SharedValue) (fx : list effect) : list number :=
  flat_map (fun e => match e with Assign sv' a => if same sv sv' then values a else [] end) fx.

End Dark.

(* ===================================================================== *)
(** * The light screen (lines 365-738), on React Native's [Animated]      *)
(* ===================================================================== *)

Module Light.
Import JS.
Local Open Scope float_scope.

Record BmiCategory : Set := {
  label : Label;
  rangeLabel : jsstring;
  hint : jsstring;
  colorClass : jsstring;
  accentHex : jsstring
}.

(** Lines 387-393. *)
Definition parseNumber (input : jsstring) : option number :=
  let normalized := trim (replace input (str ",") (str ".")) in
  match normalized with
  | [] => None
  | _ :: _ =>
    let value := Number normalized in
    if negb (Number_isFinite value) then None
    else Some value
  end.

(** Lines 395-433. *)
Definition getBmiCategory (bmi : number) : BmiCategory :=
  if lt bmi 18.5 then
    {| label := Underweight;
       rangeLabel := str "< 18.5";
       hint := str "Try a nutrient-dense diet and strength training. If unsure, check with a clinician.";
       colorClass := str "text-orange-700";
       accentHex := str "#c2410c" |}
  else if lt bmi 25 then
    {| label := Normal;
       rangeLabel := str "18.5 – 24.9";
       hint := str "Nice! Keep a balanced diet and regular activity to maintain.";
       colorClass := str "text-emerald-700";
       accentHex := str "#047857" |}
  else if lt bmi 30 then
    {| label := Overweight;
       rangeLabel := str "25.0 – 29.9";
       hint := str "Consider small, sustainable changes: daily steps, protein-forward meals, and sleep.";
       colorClass := str "text-amber-700";
       accentHex := str "#b45309" |}
  else
    {| label := Obese;
       rangeLabel := str "≥ 30.0";
       hint := str "A structured plan helps: nutrition, movement, and medical guidance if needed.";
       colorClass := str "text-rose-700";
       accentHex := str "#be123c" |}.

(** Lines 435-437. *)
Definition round1 (n : number) : jsstring :=
  toFixed (Math_round (n * 10) / 10) 1.

(** ** The component state (lines 440-448)

    [useState] cells are fields of [state] ([barWidth] is not touched by the
    handlers and is left out).  The [Animated.Value]s are driven by calls on
    them and by starting animations: a handler returns the calls it makes, in
    program order. *)

Record state : Set := {
  heightCm : jsstring;
  weightKg : jsstring;
  bmi : option number
}.

Definition initial : state := {| heightCm := []; weightKg := []; bmi := None |}.

Definition setHeightCm (v : jsstring) (st : state) : state :=
  {| heightCm := v; weightKg := weightKg st; bmi := bmi st |}.
Definition setWeightKg (v : jsstring) (st : state) : state :=
  {| heightCm := heightCm st; weightKg := v; bmi := bmi st |}.
Definition setBmi (v : option number) (st : state) : state :=
  {| heightCm := heightCm st; weightKg := weightKg st; bmi := v |}.

Inductive AnimatedValue : Set := reveal | shakeX | progress | indicatorPop.

Inductive animation : Set :=
| timing (value : AnimatedValue) (toValue duration : number) (useNativeDriver : bool)
| spring (value : AnimatedValue) (toValue speed bounciness : number) (useNativeDriver : bool)
| sequence (animations : list animation)
| parallel (animations : list animation).

(** [v.setValue(x)], [v.stopAnimation()] and [a.start()]. *)
Inductive effect : Set :=
| setValue (v : AnimatedValue) (x : number)
| stopAnimation (v : AnimatedValue)
| start (a : animation).

(** Lines 450-454: the memoised values. *)
Definition heightValue (st : state) : option number := parseNumber (heightCm st).
Definition weightValue (st : state) : option number := parseNumber (weightKg st).
Definition category (st : state) : option BmiCategory := option_map getBmiCategory (bmi st).
Definition accentHexOf (st : state) : jsstring :=
  match category st with Some c => accentHex c | None => str "#0f172a" end.

(** Line 687: the text of the result card. *)
Definition bmiText (st : state) : jsstring :=
  match bmi st with None => str "—" | Some b => round1 b end.

(** Lines 517-529. *)
Definition triggerIndicatorPop : list effect :=
  [stopAnimation indicatorPop;
   setValue indicatorPop 0;
   start (sequence
            [spring indicatorPop 1 18 10 true;
             timing indicatorPop 0 220 true])].

(** Lines 531-540. *)
Definition triggerInvalidShake : list effect :=
  [setValue shakeX 0;
   start (sequence
            [timing shakeX (-10) 60 true;
             timing shakeX 10 60 true;
             timing shakeX (-8) 60 true;
             timing shakeX 8 60 true;
             timing shakeX 0 60 true])].

(** Lines 546-552, 565-566 and 571: the constants of [onCalculate], as
    functions of what they are computed from. *)
Definition valid (h w : option number) : bool :=
  notNull h && notNull w
  && gt (ToNumber h) 40 && lt (ToNumber h) 260
  && gt (ToNumber w) 10 && lt (ToNumber w) 400.

Definition nextBmi (h w : option number) : number :=
  let heightM := ToNumber h / 100 in
  ToNumber w / (heightM * heightM).

Definition normalized (nextBmi : number) : number :=
  Math_max 0 (Math_min 1 ((nextBmi - 10) / 30)).

(** Lines 542-579. *)
Definition onCalculate (st : state) : state * list effect :=
  let h := heightValue st in
  let w := weightValue st in
  if negb (valid h w) then
    (setBmi None st,
     triggerInvalidShake
       ++ [setValue indicatorPop 0;
           start (parallel
                    [timing reveal 0 160 true;
                     timing progress 0 180 false])])
  else
    (setBmi (Some (nextBmi h w)) st,
     [start (timing reveal 1 220 true);
      start (timing progress (normalized (nextBmi h w)) 480 false)]
       ++ triggerIndicatorPop).

(** Lines 581-590. *)
Definition onReset (st : state) : state * list effect :=
  (setBmi None (setWeightKg [] (setHeightCm [] st)),
   [setValue indicatorPop 0;
    start (parallel
             [timing reveal 0 160 true;
              timing progress 0 180 false])]).

(** ** What the specification calls [evaluate] and the display state *)

(** The outcome [onCalculate] computes from the parsed values (lines
    543-571), with the category the screen derives from the stored value. *)
Definition evaluate (h w : option number) : EvaluationOutcome BmiCategory :=
  if negb (valid h w) then Rejected
  else Accepted (nextBmi h w) (getBmiCategory (nextBmi h w)) (normalized (nextBmi h w)).

(** The legs of the shake a handler emitted, if it emitted one. *)
Definition timing_leg (a : animation) : list leg :=
  match a with
  | timing shakeX v d _ => [(v, d)]
  | _ => []
  end.

Definition shake_legs (fx : list effect) : list leg :=
  flat_map
    (fun e =>
       match e with
       | start (sequence steps) => flat_map timing_leg steps
       | _ => []
       end) fx.

(** The screen stores no flag that tells Idle from Invalid: both show no
    result ([bmi] is [null]).  What tells them apart is the shake the handler
    emits, so the display state is read off a handler's result. *)
Definition display (r : state * list effect) : DisplayState BmiCategory :=
  match bmi (fst r) with
  | Some v => Result v (getBmiCategory v)
  | None =>
    match shake_legs (snd r) with
    | [] => Idle
    | _ :: _ => Invalid
    end
  end.

(** The animations a handler starts ([setValue] and [stopAnimation] start
    none). *)
Definition started (fx : list effect) : list animation :=
  flat_map (fun e => match e with start a => [a] | _ => [] end) fx.

(** The animations that run from the moment [a] is started: a sequence runs
    its first step, a parallel group all of its members. *)
Fixpoint first_steps (a : animation) : list animation :=
  match a with
  | sequence [] => []
  | sequence (a0 :: _) => first_steps a0
  | parallel l => flat_map first_steps l
  | _ => [a]
  end.

Definition same (a b : AnimatedValue) : bool :=
  match a, b with
  | reveal, reveal | shakeX, shakeX | progress, progress
  | indicatorPop, indicatorPop => true
  | _, _ => false
  end.

(** The values an animation moves [v] to, in order. *)
Fixpoint values (v : AnimatedValue) (a : animation) : list number :=
  match a with
  | timing v' x _ _ => if same v v' then [x] else []
  | spring v' x _ _ _ => if same v v' then [x] else []
  | sequence l => flat_map (values v) l
  | parallel l => flat_map (values v) l
  end.

(** The values the animations a handler starts drive [v] to, in order. *)
Definition targets (v : AnimatedValue) (fx : list effect) : list number :=
  flat_map (values v) (started fx).

End Light.

(* ===================================================================== *)
(** * Vocabulary of the statements                                        *)
(* ===================================================================== *)

(** A parsed value is present and strictly between [lo] and [hi]. *)
Definition strictly_within (lo hi : JS.number) (v : option JS.number) : Prop :=
  match v with
  | Some x => (lo <? x)%float = true /\ (x <? hi)%float = true
  | None => False
  end.

(** The screens with the two texts typed in and nothing calculated yet. *)
Definition dark_state (h w : string) : Dark.state :=
  {| Dark.heightCm := JS.str h; Dark.weightKg := JS.str w; Dark.bmi := None |}.
Definition light_state (h w : string) : Light.state :=
  {| Light.heightCm := JS.str h; Light.weightKg := JS.str w; Light.bmi := None |}.

(** The shake of both screens: five legs of 60 ms. *)
Definition five_legs : list leg :=
  [(-10, 60); (10, 60); (-8, 60); (8, 60); (0, 60)]%float.

(** The palette index of a category on the dark screen. *)
Definition band_index (l : Label) : JS.number :=
  match l with
  | Underweight => 0
  | Normal => 1
  | Overweight => 2
  | Obese => 3
  end%float.

(** ** Predicates on specified numbers *)

(** [r] is no NaN and carries the sign [s]. *)
Definition has_sign (s : bool) (r : spec_float) : Prop :=
  match r with
  | S754_zero s' | S754_infinity s' | S754_finite s' _ _ => s' = s
  | S754_nan => False
  end.

(** [r] is infinity, or a normal number of at least [B * 2 ^ eb] (for a
    normal mantissa [B]), with the sign [s]. *)
Definition at_least (s : bool) (B eb : Z) (r : spec_float) : Prop :=
  r = S754_infinity s
  \/ exists m' e',
      r = S754_finite s m' e'
      /\ (2 ^ 52 <= Zpos m' < 2 ^ 53)%Z
      /\ (eb < e' \/ (e' = eb /\ B <= Zpos m'))%Z.

(** [r] is a positive normal number whose exponent lies between [lo] and
    [hi]: its value is in [[2 ^ (lo + 52), 2 ^ (hi + 53))]. *)
Definition normal_within (lo hi : Z) (r : spec_float) : Prop :=
  exists m e,
    r = S754_finite false m e
    /\ (2 ^ 52 <= Zpos m < 2 ^ 53)%Z
    /\ (lo <= e <= hi)%Z.

(** The code units a numeric literal is made of: the decimal digits, the
    signs, the decimal point, the letters of the hexadecimal digits and of the
    exponent, of the radix prefixes and of [Infinity]. *)
Definition numeric_unit (c : JS.code_unit) : bool :=
  JS.isDecimalDigit c || existsb (N.eqb c) (JS.str "+-.abcdefABCDEFxXoOInity").

(* ===================================================================== *)
(** * Facts about binary64 comparison                                     *)
(* ===================================================================== *)

Section FloatOrder.
Local Open Scope float_scope.

Lemma SFcompare_antisym (x y : spec_float) :
  SFcompare y x = option_map CompOpp (SFcompare x y).
Proof.
  destruct x as [sx|sx| |sx mx ex], y as [sy|sy| |sy my ey]; simpl;
    try destruct sx; try destruct sy; try reflexivity;
    change (PosDef.Pos.compare_cont Eq my mx) with (Pos.compare my mx);
    change (PosDef.Pos.compare_cont Eq mx my) with (Pos.compare mx my);
    rewrite (Z.compare_antisym ex ey), (Pos.compare_antisym mx my);
    destruct (ex ?= ey)%Z, (mx ?= my)%positive; reflexivity.
Qed.

Lemma SFcompare_Lt_trans (x y z : spec_float) :
  SFcompare x y = Some Lt -> SFcompare y z = Some Lt -> SFcompare x z = Some Lt.
Proof.
  destruct x as [sx|sx| |sx mx ex], y as [sy|sy| |sy my ey], z as [sz|sz| |sz mz ez];
    simpl; try destruct sx; try destruct sy; try destruct sz;
    try discriminate; try reflexivity;
    change (PosDef.Pos.compare_cont Eq mx my) with (Pos.compare mx my);
    change (PosDef.Pos.compare_cont Eq my mz) with (Pos.compare my mz);
    change (PosDef.Pos.compare_cont Eq mx mz) with (Pos.compare mx mz);
    destruct (Z.compare_spec ex ey), (Z.compare_spec ey ez), (Z.compare_spec ex ez);
    destruct (Pos.compare_spec mx my), (Pos.compare_spec my mz), (Pos.compare_spec mx mz);
    simpl; try discriminate; try reflexivity; intros; exfalso; lia.
Qed.

Lemma ltb_trans (a b c : float) :
  (a <? b) = true -> (b <? c) = true -> (a <? c) = true.
Proof.
  rewrite !ltb_spec. unfold SFltb. intros Hab Hbc.
  destruct (SFcompare (Prim2SF a) (Prim2SF b)) as [[]|] eqn:E1; try discriminate.
  destruct (SFcompare (Prim2SF b) (Prim2SF c)) as [[]|] eqn:E2; try discriminate.
  now rewrite (SFcompare_Lt_trans _ _ _ E1 E2).
Qed.

Lemma leb_not_ltb (a b : float) : (a <=? b) = true -> (b <? a) = false.
Proof.
  rewrite leb_spec, ltb_spec. unfold SFleb, SFltb.
  rewrite (SFcompare_antisym (Prim2SF a) (Prim2SF b)).
  destruct (SFcompare (Prim2SF a) (Prim2SF b)) as [[]|]; simpl; congruence.
Qed.

Lemma ltb_not_ltb (a b : float) : (a <? b) = true -> (b <? a) = false.
Proof.
  rewrite !ltb_spec. unfold SFltb.
  rewrite (SFcompare_antisym (Prim2SF a) (Prim2SF b)).
  destruct (SFcompare (Prim2SF a) (Prim2SF b)) as [[]|]; simpl; congruence.
Qed.

Lemma ltb_leb (a b : float) : (a <? b) = true -> (a <=? b) = true.
Proof.
  rewrite leb_spec, ltb_spec. unfold SFleb, SFltb.
  destruct (SFcompare (Prim2SF a) (Prim2SF b)) as [[]|]; simpl; congruence.
Qed.

(** Below [lo], hence not at or above a larger [hi]. *)
Lemma ltb_below (x lo hi : float) :
  (lo <? hi) = true -> (hi <=? x) = true -> (x <? lo) = false.
Proof.
  intros Hlh Hhx. destruct (x <? lo) eqn:E; [|reflexivity].
  pose proof (ltb_trans _ _ _ E Hlh) as H.
  rewrite (leb_not_ltb _ _ Hhx) in H. discriminate.
Qed.

End FloatOrder.

(* ===================================================================== *)
(** * Facts about binary64 rounding                                       *)
(* ===================================================================== *)

(** The operations of [PrimFloat] are specified by those of [SpecFloat]
    ([FloatAxioms]); what follows is proved on the latter: the sign of a
    rounded result, and a lower bound that rounding to nearest keeps. *)

Section Rounding.
Import JS.
Local Open Scope Z_scope.

(** ** Shifting right *)

Lemma shr_1_div2 (mrs : shr_record) :
  0 <= shr_m mrs -> shr_m (shr_1 mrs) = shr_m mrs / 2.
Proof.
  destruct mrs as [m r s]. cbn [shr_m shr_1]. intros Hm.
  rewrite <- Z.div2_div. destruct m as [|[p|p|]|p]; try reflexivity. lia.
Qed.

Lemma pow2_xO (p : positive) : 2 ^ Zpos p~0 = 2 ^ Zpos p * 2 ^ Zpos p.
Proof. rewrite <- Z.pow_add_r by lia. f_equal. lia. Qed.

Lemma pow2_xI (p : positive) : 2 ^ Zpos p~1 = 2 * (2 ^ Zpos p * 2 ^ Zpos p).
Proof.
  rewrite <- Z.pow_add_r by lia. rewrite <- Z.pow_succ_r by lia. f_equal. lia.
Qed.

Lemma iter_shr_1_div (p : positive) :
  forall mrs : shr_record,
    0 <= shr_m mrs -> shr_m (iter_pos shr_1 p mrs) = shr_m mrs / 2 ^ Zpos p.
Proof.
  induction p as [p IH|p IH|]; intros mrs Hm; cbn [iter_pos].
  - assert (H1 : 0 <= shr_m (shr_1 mrs))
      by (rewrite shr_1_div2 by exact Hm; apply Z.div_pos; lia).
    assert (H2 : 0 <= shr_m (iter_pos shr_1 p (shr_1 mrs)))
      by (rewrite IH by exact H1; apply Z.div_pos; lia).
    rewrite IH by exact H2. rewrite IH by exact H1. rewrite shr_1_div2 by exact Hm.
    rewrite !Z.div_div by lia. rewrite pow2_xI. reflexivity.
  - assert (H2 : 0 <= shr_m (iter_pos shr_1 p mrs))
      by (rewrite IH by exact Hm; apply Z.div_pos; lia).
    rewrite IH by exact H2. rewrite IH by exact Hm.
    rewrite Z.div_div by lia. rewrite pow2_xO. reflexivity.
  - rewrite shr_1_div2 by exact Hm. reflexivity.
Qed.

(** [shr] divides the mantissa by [2 ^ n] and adds [n] to the exponent, for
    [0 < n]; it does nothing otherwise. *)
Lemma shr_spec (mrs : shr_record) (e n : Z) :
  0 <= shr_m mrs ->
  shr_m (fst (shr mrs e n)) = shr_m mrs / 2 ^ Z.max n 0
  /\ snd (shr mrs e n) = e + Z.max n 0.
Proof.
  intros Hm. destruct n as [|p|p]; cbn [shr fst snd].
  - rewrite Z.max_r by lia. rewrite Z.pow_0_r, Z.div_1_r. split; lia.
  - rewrite Z.max_l by lia. split; [apply iter_shr_1_div; exact Hm | reflexivity].
  - rewrite Z.max_r by lia. rewrite Z.pow_0_r, Z.div_1_r. split; lia.
Qed.

Lemma shr_m_of_loc (m : Z) (l : location) : shr_m (shr_record_of_loc m l) = m.
Proof. destruct l as [|[]]; reflexivity. Qed.

Lemma shr_fexp_spec (m e : Z) (l : location) :
  0 <= m ->
  let n := Z.max (fexp prec emax (Zdigits2 m + e) - e) 0 in
  shr_m (fst (shr_fexp prec emax m e l)) = m / 2 ^ n
  /\ snd (shr_fexp prec emax m e l) = e + n.
Proof.
  intros Hm n. unfold shr_fexp.
  pose proof (shr_spec (shr_record_of_loc m l) e (fexp prec emax (Zdigits2 m + e) - e)) as H.
  rewrite shr_m_of_loc in H. exact (H Hm).
Qed.

Lemma round_nearest_even_bounds (m : Z) (l : location) :
  m <= round_nearest_even m l <= m + 1.
Proof.
  unfold round_nearest_even. destruct l as [|[]]; try lia. destruct (Z.even m); lia.
Qed.

(** ** The sign of a rounded result *)

Lemma binary_round_aux_sign (s : bool) (mx ex : Z) (lx : location) :
  0 <= mx -> has_sign s (binary_round_aux prec emax s mx ex lx).
Proof.
  intros Hm. unfold binary_round_aux.
  destruct (shr_fexp prec emax mx ex lx) as [mrs' e'] eqn:E1.
  pose proof (shr_fexp_spec mx ex lx Hm) as [H1 _]. rewrite E1 in H1. cbn [fst] in H1.
  set (m2 := round_nearest_even (shr_m mrs') (loc_of_shr_record mrs')).
  assert (Hm2 : 0 <= m2).
  { pose proof (round_nearest_even_bounds (shr_m mrs') (loc_of_shr_record mrs')).
    assert (0 <= shr_m mrs') by (rewrite H1; apply Z.div_pos; lia). unfold m2. lia. }
  destruct (shr_fexp prec emax m2 e' loc_Exact) as [mrs'' e''] eqn:E2.
  pose proof (shr_fexp_spec m2 e' loc_Exact Hm2) as [H2 _]. rewrite E2 in H2. cbn [fst] in H2.
  assert (0 <= shr_m mrs'') by (rewrite H2; apply Z.div_pos; lia).
  destruct (shr_m mrs'') as [|p|p]; cbn [has_sign]; try reflexivity; [|lia].
  destruct (e'' <=? emax - prec); reflexivity.
Qed.

(** ** Predicates on numbers, through their specification *)

Local Open Scope float_scope.

Lemma SFcompare_refl (x : spec_float) :
  x <> S754_nan -> SFcompare x x = Some Eq.
Proof.
  destruct x as [s|s| |s m e]; intros H; cbn [SFcompare].
  - reflexivity.
  - destruct s; reflexivity.
  - congruence.
  - rewrite Z.compare_refl.
    change (PosDef.Pos.compare_cont Eq m m) with (Pos.compare m m).
    rewrite Pos.compare_refl. destruct s; reflexivity.
Qed.

Lemma is_nan_spec (x : float) :
  is_nan x = match Prim2SF x with S754_nan => true | _ => false end.
Proof.
  unfold is_nan. rewrite eqb_spec. unfold SFeqb.
  destruct (Prim2SF x) as [s|s| |s m e] eqn:E; try reflexivity;
    rewrite SFcompare_refl by discriminate; reflexivity.
Qed.

Lemma nan_unique (x : float) : Prim2SF x = S754_nan -> x = nan.
Proof. intros H. apply Prim2SF_inj. rewrite H. reflexivity. Qed.

Lemma Math_min_1 (q : float) :
  Math_min 1 q = if is_nan q then nan else if q <? 1 then q else 1.
Proof.
  unfold Math_min. change (is_nan 1) with false. change (is_pos_zero 1) with false.
  rewrite andb_false_r. reflexivity.
Qed.

Lemma Math_max_0 (r : float) :
  Math_max 0 r = if is_nan r then nan else if 0 <? r then r else 0.
Proof.
  unfold Math_max. change (is_nan 0) with false. change (is_neg_zero 0) with false.
  rewrite andb_false_r. reflexivity.
Qed.

(** How a number that is no NaN compares with 0 and with 1. *)
Lemma compare_0_1 (x : spec_float) :
  x <> S754_nan ->
  exists c0 c1,
    SFcompare x (Prim2SF 0) = Some c0 /\ SFcompare x (Prim2SF 1) = Some c1
    /\ (c0 <> Gt -> c1 = Lt).
Proof.
  change (Prim2SF 0) with (S754_zero false).
  change (Prim2SF 1) with (S754_finite false 4503599627370496 (-52)).
  destruct x as [s|s| |[|] m e]; intros H; cbn [SFcompare]; try congruence.
  - exists Eq, Lt. auto.
  - destruct s; [exists Lt, Lt | exists Gt, Gt]; intuition congruence.
  - exists Lt, Lt. auto.
  - eexists Gt, _. split; [reflexivity|]. split; [reflexivity|]. congruence.
Qed.

Lemma normalized_clamp (x : float) :
  Dark.normalized x = clamp ((x - 10) / 30) 0 1.
Proof.
  unfold Dark.normalized, clamp. set (q := (x - 10) / 30).
  rewrite Math_min_1, Math_max_0.
  rewrite (is_nan_spec q).
  destruct (Prim2SF q) as [s|s| |s m e] eqn:EQ.
  3:{ change (is_nan nan) with true.
      rewrite !leb_spec, EQ. cbn [SFleb SFcompare].
      change (Prim2SF 1) with (S754_finite false 4503599627370496 (-52)).
      cbn [SFleb SFcompare]. symmetry. apply nan_unique. exact EQ. }
  all: assert (Hn : Prim2SF q <> S754_nan) by (rewrite EQ; discriminate).
  all: destruct (compare_0_1 _ Hn) as (c0 & c1 & H0 & H1 & H01).
  all: rewrite (ltb_spec q 1), (leb_spec q 0), (leb_spec 1 q).
  all: unfold SFltb, SFleb.
  all: rewrite (SFcompare_antisym (Prim2SF q) (Prim2SF 1)), H0, H1.
  all: cbn [option_map].
  all: destruct c1; cbn [CompOpp];
    [ change (is_nan 1) with false; change (0 <? 1) with true
    | rewrite (is_nan_spec q), EQ, (ltb_spec 0 q); unfold SFltb;
      rewrite (SFcompare_antisym (Prim2SF q) (Prim2SF 0)), H0; cbn [option_map]
    | change (is_nan 1) with false; change (0 <? 1) with true ].
  all: destruct c0; cbn [CompOpp]; try reflexivity.
  all: try (assert (Hc : Eq = Lt) by (apply H01; discriminate); discriminate Hc).
  all: try (assert (Hc : Gt = Lt) by (apply H01; discriminate); discriminate Hc).
Qed.

(** ** Digits and validity *)

Local Open Scope Z_scope.

Lemma digits2_size (m : positive) : digits2_pos m = Pos.size m.
Proof. induction m as [m IH|m IH|]; cbn [digits2_pos Pos.size]; congruence. Qed.

(** [2 ^ (d - 1) <= m < 2 ^ d] for the number [d] of binary digits of [m]. *)
Lemma digits2_bounds (m : positive) :
  2 ^ (Zpos (digits2_pos m) - 1) <= Zpos m < 2 ^ Zpos (digits2_pos m).
Proof.
  induction m as [m IH|m IH|]; cbn [digits2_pos].
  - rewrite Pos2Z.inj_succ, (Pos2Z.inj_xI m).
    replace (Z.succ (Zpos (digits2_pos m)) - 1) with (Z.succ (Zpos (digits2_pos m) - 1)) by lia.
    rewrite !Z.pow_succ_r by lia.
    lia.
  - rewrite Pos2Z.inj_succ, (Pos2Z.inj_xO m).
    replace (Z.succ (Zpos (digits2_pos m)) - 1) with (Z.succ (Zpos (digits2_pos m) - 1)) by lia.
    rewrite !Z.pow_succ_r by lia.
    lia.
  - cbn. lia.
Qed.

(** The mantissa of a valid number has at most 53 digits, and exactly 53 above
    the least exponent. *)
Lemma bounded_digits (m : positive) (e : Z) :
  bounded prec emax m e = true ->
  Zpos (digits2_pos m) <= 53
  /\ (-1074 < e -> Zpos (digits2_pos m) = 53)
  /\ -1074 <= e <= 971.
Proof.
  unfold bounded, canonical_mantissa, fexp, SpecFloat.emin, prec, emax.
  intros H. apply andb_true_iff in H as [H1 H2].
  apply Z.eqb_eq in H1. apply Z.leb_le in H2. lia.
Qed.

Lemma bounded_lt (m : positive) (e : Z) :
  bounded prec emax m e = true -> Zpos m < 2 ^ 53.
Proof.
  intros H. destruct (bounded_digits m e H) as [Hd _].
  pose proof (digits2_bounds m) as [_ Hm].
  apply Z.lt_le_trans with (1 := Hm). apply Z.pow_le_mono_r; lia.
Qed.

Lemma bounded_normal (m : positive) (e : Z) :
  bounded prec emax m e = true -> -1074 < e -> 2 ^ 52 <= Zpos m.
Proof.
  intros H He. destruct (bounded_digits m e H) as [_ [Hd _]].
  pose proof (digits2_bounds m) as [Hm _]. rewrite (Hd He) in Hm. exact Hm.
Qed.

(** ** Aligning mantissas *)

Lemma iter_xO (d m : positive) : Zpos (Pos.iter xO m d) = Zpos m * 2 ^ Zpos d.
Proof.
  revert m. induction d as [d IH|d IH|]; intros m; cbn [Pos.iter].
  - rewrite Pos2Z.inj_xO, !IH, pow2_xI. ring.
  - rewrite !IH, pow2_xO. ring.
  - rewrite Pos2Z.inj_xO. lia.
Qed.

(** [shl_align] keeps the value: the mantissa is multiplied by the power of
    two the exponent is lowered by. *)
Lemma shl_align_spec (m : positive) (e e' : Z) :
  let k := Z.max (e - e') 0 in
  Zpos (fst (shl_align m e e')) = Zpos m * 2 ^ k
  /\ snd (shl_align m e e') = e - k.
Proof.
  unfold shl_align. destruct (e' - e) as [|d|d] eqn:E; cbn [fst snd].
  - rewrite Z.max_r by lia. rewrite Z.pow_0_r. split; lia.
  - rewrite Z.max_r by lia. rewrite Z.pow_0_r. split; lia.
  - rewrite Z.max_l by lia. rewrite iter_xO.
    replace (e - e') with (Zpos d) by lia. split; lia.
Qed.

(** ** Signs of the results of the operations *)

Lemma binary_round_sign (s : bool) (m : positive) (e : Z) :
  has_sign s (binary_round prec emax s m e).
Proof.
  unfold binary_round. destruct (shl_align m e _) as [mz ez].
  apply binary_round_aux_sign. lia.
Qed.

Lemma binary_normalize_sign (z e : Z) :
  match z with
  | Z0 => binary_normalize prec emax z e false = S754_zero false
  | Zpos _ => has_sign false (binary_normalize prec emax z e false)
  | Zneg _ => has_sign true (binary_normalize prec emax z e false)
  end.
Proof. destruct z; cbn [binary_normalize]; [reflexivity | |]; apply binary_round_sign. Qed.

Lemma SFdiv_core_quotient (m1 m2 : positive) (e1 e2 : Z) :
  let e' := Z.min (fexp prec emax (Zdigits2 (Zpos m1) + e1 - (Zdigits2 (Zpos m2) + e2))) (e1 - e2) in
  SFdiv_core_binary prec emax (Zpos m1) e1 (Zpos m2) e2 =
  (Zpos m1 * 2 ^ (e1 - e2 - e') / Zpos m2, e',
   new_location (Zpos m2) ((Zpos m1 * 2 ^ (e1 - e2 - e')) mod Zpos m2)).
Proof.
  intros e'. unfold SFdiv_core_binary. fold e'.
  assert (He : e' <= e1 - e2) by (unfold e'; lia).
  set (m' := match e1 - e2 - e' with
             | Z0 => Zpos m1
             | Zpos _ => Z.shiftl (Zpos m1) (e1 - e2 - e')
             | Zneg _ => 0
             end).
  assert (Hm : m' = Zpos m1 * 2 ^ (e1 - e2 - e')).
  { unfold m'. destruct (e1 - e2 - e') as [|p|p] eqn:E.
    - rewrite Z.pow_0_r. lia.
    - rewrite Z.shiftl_mul_pow2 by lia. reflexivity.
    - lia. }
  rewrite <- Hm. unfold Z.div, Z.modulo.
  destruct (Z.div_eucl m' (Zpos m2)) as [q r]. reflexivity.
Qed.

Lemma SFdiv_finite_sign (sx : bool) (x : spec_float) (sy : bool) (my : positive) (ey : Z) :
  has_sign sx x -> has_sign (xorb sx sy) (SFdiv prec emax x (S754_finite sy my ey)).
Proof.
  destruct x as [s|s| |s m e]; cbn [has_sign SFdiv]; try (intros ->; reflexivity); [easy|].
  intros ->. rewrite SFdiv_core_quotient.
  apply binary_round_aux_sign. apply Z.div_pos; lia.
Qed.

Lemma SFmul_self_sign (x : spec_float) :
  has_sign false x -> has_sign false (SFmul prec emax x x).
Proof.
  destruct x as [s|s| |s m e]; cbn [has_sign SFmul]; try (intros ->; reflexivity); [easy|].
  intros ->. apply binary_round_aux_sign. lia.
Qed.

(** A finite number over one that is no NaN and has a sign. *)
Lemma SFdiv_by_signed (sx : bool) (mx : positive) (ex : Z) (sy : bool) (y : spec_float) :
  has_sign sy y -> has_sign (xorb sx sy) (SFdiv prec emax (S754_finite sx mx ex) y).
Proof.
  destruct y as [s|s| |s m e]; cbn [has_sign SFdiv]; try (intros ->; reflexivity); [easy|].
  intros ->. rewrite SFdiv_core_quotient.
  apply binary_round_aux_sign. apply Z.div_pos; lia.
Qed.

Lemma SFsub_finite_not_nan (x : spec_float) (sy : bool) (my : positive) (ey : Z) :
  x <> S754_nan -> SFsub prec emax x (S754_finite sy my ey) <> S754_nan.
Proof.
  destruct x as [s|s| |s m e]; cbn [SFsub]; try discriminate; [congruence|].
  intros _.
  pose proof (binary_normalize_sign
                (cond_Zopp s (Zpos (fst (shl_align m e (Z.min e ey))))
                 - cond_Zopp sy (Zpos (fst (shl_align my ey (Z.min e ey)))))
                (Z.min e ey)) as H.
  destruct (cond_Zopp s _ - cond_Zopp sy _).
  - rewrite H. discriminate.
  - intros E. rewrite E in H. exact H.
  - intros E. rewrite E in H. exact H.
Qed.

Lemma has_sign_not_nan (s : bool) (x : spec_float) : has_sign s x -> x <> S754_nan.
Proof. destruct x; cbn [has_sign]; congruence. Qed.

(** ** A lower bound that rounding keeps *)

(** The number of digits, from bounds. *)
Lemma digits2_unique (p : positive) (k : Z) :
  2 ^ (k - 1) <= Zpos p < 2 ^ k -> Zpos (digits2_pos p) = k.
Proof.
  intros [Hl Hu]. pose proof (digits2_bounds p) as [Dl Du].
  set (d := Zpos (digits2_pos p)) in *.
  assert (0 < k).
  { destruct (Z_lt_le_dec 0 k) as [|Hk]; [assumption|].
    assert (2 ^ k <= 2 ^ 0) by (apply Z.pow_le_mono_r; lia).
    change (2 ^ 0) with 1 in *. lia. }
  assert (k - 1 < d).
  { apply (Z.pow_lt_mono_r_iff 2); [lia | unfold d; lia | lia]. }
  assert (d - 1 < k).
  { apply (Z.pow_lt_mono_r_iff 2); lia. }
  lia.
Qed.

(** Mantissas compare as integers. *)
Lemma compare_cont_Z (m k : positive) :
  PosDef.Pos.compare_cont Eq m k = (Zpos m ?= Zpos k).
Proof. reflexivity. Qed.

Lemma fexp_eq (x : Z) : fexp prec emax x = Z.max (x - 53) (-1074).
Proof. reflexivity. Qed.

Lemma pow2_split (a b : Z) : 0 <= a -> 0 <= b -> 2 ^ (a + b) = 2 ^ a * 2 ^ b.
Proof. intros. apply Z.pow_add_r; assumption. Qed.

(** [binary_round_aux] on a positive mantissa that has enough digits and
    whose value [m * 2 ^ e] is at least [B * 2 ^ eb], for a normal mantissa
    [B]: the result is at least that too. *)
Lemma binary_round_aux_lower (s : bool) (p : positive) (e : Z) (l : location) (B eb : Z) :
  2 ^ 52 <= B -> -1074 <= eb ->
  e <= fexp prec emax (Zdigits2 (Zpos p) + e) ->
  (e <= eb /\ B * 2 ^ (eb - e) <= Zpos p) \/ eb < e ->
  at_least s B eb (binary_round_aux prec emax s (Zpos p) e l).
Proof.
  intros HB Heb Hdig Hval.
  cbn [Zdigits2] in Hdig. pose proof (digits2_bounds p) as [Dl Du].
  set (d := Zpos (digits2_pos p)) in *.
  assert (Hd0 : 0 < d) by (unfold d; lia).
  rewrite fexp_eq in Hdig.
  (* the exponent after the first shift *)
  assert (He1 : eb <= d + e - 53).
  { destruct Hval as [[Hle Hm]|Hlt]; [|lia].
    assert (2 ^ 52 * 2 ^ (eb - e) <= B * 2 ^ (eb - e))
      by (apply Z.mul_le_mono_nonneg_r; [apply Z.pow_nonneg|]; lia).
    rewrite <- pow2_split in H by lia.
    assert (52 + (eb - e) < d) by (apply (Z.pow_lt_mono_r_iff 2); lia).
    lia. }
  assert (Hn : 0 <= d - 53) by lia.
  unfold binary_round_aux.
  pose proof (shr_fexp_spec (Zpos p) e l ltac:(lia)) as [H1 H1e].
  cbn zeta in H1, H1e. cbn [Zdigits2] in H1, H1e. fold d in H1, H1e.
  rewrite fexp_eq in H1, H1e.
  replace (Z.max (Z.max (d + e - 53) (-1074) - e) 0) with (d - 53) in H1, H1e by lia.
  destruct (shr_fexp prec emax (Zpos p) e l) as [mrs' e'].
  cbn [fst snd] in H1, H1e. subst e'.
  set (m1 := shr_m mrs') in *.
  assert (Hpow : 2 ^ d = 2 ^ 53 * 2 ^ (d - 53)).
  { rewrite <- pow2_split by lia. f_equal. lia. }
  assert (Hpow' : 2 ^ (d - 1) = 2 ^ 52 * 2 ^ (d - 53)).
  { rewrite <- pow2_split by lia. f_equal. lia. }
  assert (Hp2 : 0 < 2 ^ (d - 53)) by (apply Z.pow_pos_nonneg; lia).
  assert (Hm1 : 2 ^ 52 <= m1 < 2 ^ 53).
  { rewrite H1. split.
    - apply Z.div_le_lower_bound; [exact Hp2|]. rewrite Z.mul_comm. lia.
    - apply Z.div_lt_upper_bound; [exact Hp2|]. rewrite Z.mul_comm. lia. }
  assert (HBm1 : d + e - 53 = eb -> B <= m1).
  { intros E. destruct Hval as [[Hle Hm]|Hlt]; [|lia].
    rewrite H1. apply Z.div_le_lower_bound; [exact Hp2|].
    replace (d - 53) with (eb - e) by lia. rewrite Z.mul_comm. exact Hm. }
  pose proof (round_nearest_even_bounds m1 (loc_of_shr_record mrs')) as Hr.
  set (m2 := round_nearest_even m1 (loc_of_shr_record mrs')) in *.
  destruct m2 as [|p2|p2] eqn:Em2; [lia | | lia].
  pose proof (shr_fexp_spec (Zpos p2) (e + (d - 53)) loc_Exact ltac:(lia)) as [H2 H2e].
  cbn zeta in H2, H2e. cbn [Zdigits2] in H2, H2e.
  rewrite fexp_eq in H2, H2e. change (emax - prec) with 971.
  destruct (shr_fexp prec emax (Zpos p2) (e + (d - 53)) loc_Exact) as [mrs'' e''].
  cbn [fst snd] in H2, H2e.
  destruct (Z_lt_le_dec (Zpos p2) (2 ^ 53)) as [Hlt|Hge].
  - (* the rounded mantissa still has 53 digits *)
    assert (Hd2 : Zpos (digits2_pos p2) = 53) by (apply digits2_unique; lia).
    rewrite Hd2 in H2, H2e.
    replace (Z.max (Z.max (53 + (e + (d - 53)) - 53) (-1074) - (e + (d - 53))) 0)
      with 0 in H2, H2e by lia.
    rewrite Z.pow_0_r, Z.div_1_r in H2. rewrite H2.
    destruct (e'' <=? 971); [right | left; reflexivity].
    exists p2, e''. split; [reflexivity|]. split; [lia|].
    destruct (Z.eq_dec (d + e - 53) eb) as [E|E]; [right | left; lia].
    split; [lia|]. specialize (HBm1 E). lia.
  - (* it reached [2 ^ 53] and is halved *)
    assert (Ep2 : Zpos p2 = 2 ^ 53) by lia.
    assert (Hd2 : Zpos (digits2_pos p2) = 54).
    { apply digits2_unique. rewrite Ep2. split; [lia|]. apply Z.pow_lt_mono_r; lia. }
    rewrite Hd2 in H2, H2e.
    replace (Z.max (Z.max (54 + (e + (d - 53)) - 53) (-1074) - (e + (d - 53))) 0)
      with 1 in H2, H2e by lia.
    rewrite Ep2 in H2. change (2 ^ 53 / 2 ^ 1) with (2 ^ 52) in H2. rewrite H2.
    change (2 ^ 52) with (Zpos 4503599627370496).
    cbv iota.
    destruct (e'' <=? 971); [right | left; reflexivity].
    exists 4503599627370496%positive, e''. split; [reflexivity|].
    split; [split; [apply Z.le_refl | reflexivity]|]. left. lia.
Qed.

Lemma binary_round_lower (s : bool) (p : positive) (e : Z) (B eb : Z) :
  2 ^ 52 <= B -> -1074 <= eb ->
  e <= eb -> B * 2 ^ (eb - e) <= Zpos p ->
  at_least s B eb (binary_round prec emax s p e).
Proof.
  intros HB Heb Hle Hm. unfold binary_round.
  pose proof (shl_align_spec p e (fexp prec emax (Zpos (digits2_pos p) + e))) as [Hz He].
  cbn zeta in Hz, He.
  destruct (shl_align p e (fexp prec emax (Zpos (digits2_pos p) + e))) as [mz ez].
  cbn [fst snd] in Hz, He.
  set (k := Z.max (e - fexp prec emax (Zpos (digits2_pos p) + e)) 0) in *.
  assert (Hk : 0 <= k) by (unfold k; lia).
  pose proof (digits2_bounds p) as [Dl Du].
  assert (Hdz : Zpos (digits2_pos mz) = Zpos (digits2_pos p) + k).
  { apply digits2_unique. rewrite Hz.
    replace (Zpos (digits2_pos p) + k - 1) with (Zpos (digits2_pos p) - 1 + k) by lia.
    rewrite !pow2_split by lia.
    assert (0 < 2 ^ k) by (apply Z.pow_pos_nonneg; lia).
    split; [apply Z.mul_le_mono_nonneg_r; lia | apply Z.mul_lt_mono_pos_r; lia]. }
  apply binary_round_aux_lower; try assumption.
  - cbn [Zdigits2]. rewrite Hdz. subst ez.
    replace (Zpos (digits2_pos p) + k + (e - k)) with (Zpos (digits2_pos p) + e) by lia.
    unfold k. lia.
  - left. split; [lia|]. rewrite Hz. subst ez.
    replace (eb - (e - k)) with (eb - e + k) by lia.
    rewrite pow2_split by lia. rewrite Z.mul_assoc.
    apply Z.mul_le_mono_nonneg_r; [apply Z.pow_nonneg; lia | exact Hm].
Qed.

(** ** Above 40: the scaled value is at least 1 *)

Lemma at_least_not_nan (s : bool) (B eb : Z) (r : spec_float) :
  at_least s B eb r -> has_sign s r.
Proof. intros [->|(m & e & -> & _)]; reflexivity. Qed.

(** [x - 10] is at least 30 when [x] is a number above 40. *)
Lemma sub_10_at_least_30 (m : positive) (e : Z) :
  bounded prec emax m e = true ->
  SFltb (Prim2SF 40) (S754_finite false m e) = true ->
  at_least false 8444249301319680 (-48)
    (SFsub prec emax (S754_finite false m e) (Prim2SF 10)).
Proof.
  intros Hb Hlt.
  change (Prim2SF 40) with (S754_finite false 5629499534213120 (-47)) in Hlt.
  change (Prim2SF 10) with (S754_finite false 5629499534213120 (-49)).
  unfold SFltb in Hlt. cbn [SFcompare] in Hlt. rewrite compare_cont_Z in Hlt.
  assert (He : -47 <= e /\ (e = -47 -> 5629499534213120 < Zpos m)).
  { destruct (Z.compare_spec (-47) e) as [E|E|E]; try discriminate Hlt.
    - split; [lia|]. intros _.
      destruct (Z.compare_spec 5629499534213120 (Zpos m)) as [E'|E'|E'];
        try discriminate Hlt.
      exact E'.
    - split; lia. }
  clear Hlt. destruct He as [He Hm].
  pose proof (bounded_normal m e Hb ltac:(lia)) as Hn.
  cbn [SFsub]. rewrite Z.min_r by lia. cbn [cond_Zopp].
  pose proof (shl_align_spec m e (-49)) as [Hx _].
  pose proof (shl_align_spec 5629499534213120 (-49) (-49)) as [Hy _].
  cbn zeta in Hx, Hy. rewrite Z.max_l in Hx by lia.
  change (Z.max (-49 - -49) 0) with 0 in Hy. rewrite Z.pow_0_r, Z.mul_1_r in Hy.
  rewrite Hx, Hy.
  assert (Hp : 4 <= 2 ^ (e - -49)).
  { change 4 with (2 ^ 2). apply Z.pow_le_mono_r; lia. }
  assert (HD : 2 * 8444249301319680 <= Zpos m * 2 ^ (e - -49) - 5629499534213120).
  { destruct (Z.eq_dec e (-47)) as [->|Hne].
    - specialize (Hm eq_refl). change (2 ^ (-47 - -49)) with 4. lia.
    - assert (8 <= 2 ^ (e - -49)).
      { change 8 with (2 ^ 3). apply Z.pow_le_mono_r; lia. }
      change (2 ^ 52) with 4503599627370496 in Hn. nia. }
  destruct (Zpos m * 2 ^ (e - -49) - 5629499534213120) as [|D|D] eqn:ED; [lia | | lia].
  cbn [binary_normalize].
  apply binary_round_lower;
    [change (2 ^ 52) with 4503599627370496; lia | lia | lia |].
  change (2 ^ (-48 - -49)) with 2. lia.
Qed.

(** A number at least 30, divided by 30, is at least 1. *)
Lemma div_30_at_least_1 (r : spec_float) :
  at_least false 8444249301319680 (-48) r ->
  at_least false (2 ^ 52) (-52) (SFdiv prec emax r (Prim2SF 30)).
Proof.
  change (Prim2SF 30) with (S754_finite false 8444249301319680 (-48)).
  intros [->|(m & e & -> & Hn & Hge)]; [left; reflexivity|].
  cbn [SFdiv xorb]. rewrite SFdiv_core_quotient. cbn zeta.
  cbn [Zdigits2].
  assert (Hd : Zpos (digits2_pos m) = 53) by (apply digits2_unique; lia).
  rewrite Hd. change (Zpos (digits2_pos 8444249301319680)) with 53.
  rewrite fexp_eq.
  assert (He : -48 <= e) by lia.
  replace (Z.min (Z.max (53 + e - (53 + -48) - 53) (-1074)) (e - -48)) with (e - 5) by lia.
  replace (e - -48 - (e - 5)) with 53 by lia.
  set (q := Zpos m * 2 ^ 53 / 8444249301319680).
  assert (Hq : Zpos m <= q).
  { unfold q. apply Z.div_le_lower_bound; [reflexivity|].
    change (2 ^ 53) with 9007199254740992. lia. }
  assert (Hq30 : e = -48 -> 2 ^ 53 <= q).
  { intros E. destruct Hge as [Hlt|[_ Hm]]; [lia|].
    unfold q. apply Z.div_le_lower_bound; [reflexivity|].
    change (2 ^ 53) with 9007199254740992. lia. }
  destruct q as [|pq|pq] eqn:Eq; [lia | | lia].
  apply binary_round_aux_lower; [apply Z.le_refl | lia | |].
  - cbn [Zdigits2]. rewrite fexp_eq.
    pose proof (digits2_bounds pq) as [_ Du].
    assert (52 < Zpos (digits2_pos pq)).
    { apply (Z.pow_lt_mono_r_iff 2); lia. }
    lia.
  - destruct (Z_lt_le_dec (-52) (e - 5)) as [Hgt|Hle]; [right; exact Hgt | left].
    split; [exact Hle|].
    destruct (Z.eq_dec e (-48)) as [->|Hne].
    + change (2 ^ 52 * 2 ^ (-52 - (-48 - 5))) with (2 ^ 53). apply Hq30. reflexivity.
    + replace (-52 - (e - 5)) with 0 by lia. rewrite Z.pow_0_r. lia.
Qed.

Local Open Scope float_scope.

(** Above 40 the scale position is 1. *)
Lemma above_40_saturates (x : float) : (40 <? x) = true -> Dark.normalized x = 1.
Proof.
  intros H. rewrite ltb_spec in H. pose proof (Prim2SF_valid x) as Hv.
  unfold Dark.normalized. rewrite Math_min_1, Math_max_0.
  set (q := (x - 10) / 30).
  assert (HQ : at_least false (2 ^ 52) (-52) (Prim2SF q)).
  { unfold q. rewrite div_spec, sub_spec. unfold SF64div, SF64sub.
    destruct (Prim2SF x) as [s|s| |s m e].
    - discriminate H.
    - destruct s; [discriminate H | left; reflexivity].
    - discriminate H.
    - destruct s; [discriminate H|].
      apply div_30_at_least_1, sub_10_at_least_30; assumption. }
  assert (Hnan : is_nan q = false).
  { rewrite is_nan_spec. destruct HQ as [->|(m & e & -> & _)]; reflexivity. }
  assert (Hlt : (q <? 1) = false).
  { rewrite ltb_spec.
    change (Prim2SF 1) with (S754_finite false 4503599627370496 (-52)).
    destruct HQ as [->|(m & e & -> & Hn & Hge)]; [reflexivity|].
    unfold SFltb. cbn [SFcompare].
    change (2 ^ 52)%Z with 4503599627370496%Z in Hge.
    destruct (Z.compare_spec e (-52)) as [E|E|E]; [|clear - E Hge; lia|reflexivity].
    rewrite compare_cont_Z.
    destruct (Z.compare_spec (Zpos m) 4503599627370496) as [E'|E'|E'];
      [reflexivity | clear - E E' Hge; lia | reflexivity]. }
  rewrite Hnan, Hlt. reflexivity.
Qed.

(** [x - 10] is negative when [x] is a number below 10. *)
Lemma sub_10_negative (x : spec_float) :
  valid_binary x = true ->
  SFltb x (Prim2SF 10) = true ->
  has_sign true (SFsub prec emax x (Prim2SF 10)).
Proof.
  change (Prim2SF 10) with (S754_finite false 5629499534213120 (-49)).
  intros Hv Hlt. destruct x as [s|s| |s m e].
  - reflexivity.
  - destruct s; [reflexivity | discriminate Hlt].
  - discriminate Hlt.
  - cbn [valid_binary] in Hv. pose proof (bounded_lt m e Hv) as Hm.
    cbn [SFsub].
    pose proof (shl_align_spec m e (Z.min e (-49))) as [Hx _].
    pose proof (shl_align_spec 5629499534213120 (-49) (Z.min e (-49))) as [Hy _].
    cbn zeta in Hx, Hy.
    assert (Hneg : (cond_Zopp s (Zpos (fst (shl_align m e (Z.min e (-49)))))
                    - cond_Zopp false (Zpos (fst (shl_align 5629499534213120 (-49) (Z.min e (-49)))))
                    < 0)%Z).
    { rewrite Hx, Hy. cbn [cond_Zopp].
      assert (0 < 2 ^ Z.max (e - Z.min e (-49)) 0)%Z by (apply Z.pow_pos_nonneg; lia).
      assert (0 < 2 ^ Z.max (-49 - Z.min e (-49)) 0)%Z by (apply Z.pow_pos_nonneg; lia).
      destruct s; cbn [cond_Zopp]; [nia|].
      unfold SFltb in Hlt. cbn [SFcompare] in Hlt. rewrite compare_cont_Z in Hlt.
      destruct (Z.compare_spec e (-49)) as [E|E|E]; [ | | discriminate Hlt].
      - destruct (Z.compare_spec (Zpos m) 5629499534213120) as [E'|E'|E'];
          try discriminate Hlt.
        subst e. change (Z.max (-49 - Z.min (-49) (-49)) 0) with 0%Z.
        rewrite !Z.pow_0_r. lia.
      - rewrite Z.min_l by lia. rewrite Z.sub_diag. change (Z.max 0 0) with 0%Z.
        rewrite Z.pow_0_r, Z.mul_1_r. rewrite Z.max_l by lia.
        assert (2 <= 2 ^ (-49 - e))%Z.
        { change 2%Z with (2 ^ 1)%Z at 1. apply Z.pow_le_mono_r; lia. }
        change (2 ^ 53)%Z with 9007199254740992%Z in Hm. nia. }
    pose proof (binary_normalize_sign
                  (cond_Zopp s (Zpos (fst (shl_align m e (Z.min e (-49)))))
                   - cond_Zopp false (Zpos (fst (shl_align 5629499534213120 (-49) (Z.min e (-49))))))
                  (Z.min e (-49))) as Hs.
    destruct (cond_Zopp s _ - cond_Zopp false _)%Z; [lia | lia | exact Hs].
Qed.

(** A scaled value that is negative (or [-0]) is clamped to 0. *)
Lemma negative_clamped (q : float) :
  has_sign true (Prim2SF q) -> Math_max 0 (Math_min 1 q) = 0.
Proof.
  intros H. rewrite Math_min_1, is_nan_spec, (ltb_spec q 1).
  change (Prim2SF 1) with (S754_finite false 4503599627370496 (-52)).
  destruct (Prim2SF q) as [s|s| |s m e] eqn:EQ; cbn [has_sign] in H; try subst s;
    try contradiction; unfold SFltb; cbn [SFcompare];
    rewrite Math_max_0, is_nan_spec, (ltb_spec 0 q), EQ;
    change (Prim2SF 0) with (S754_zero false); reflexivity.
Qed.

(** Below 10 the scale position is 0. *)
Lemma below_10_saturates (x : float) : (x <? 10) = true -> Dark.normalized x = 0.
Proof.
  intros H. rewrite ltb_spec in H. unfold Dark.normalized.
  apply negative_clamped. rewrite div_spec, sub_spec. unfold SF64div, SF64sub.
  change (Prim2SF 30) with (S754_finite false 8444249301319680 (-48)).
  apply (SFdiv_finite_sign true _ false).
  apply sub_10_negative; [apply Prim2SF_valid | exact H].
Qed.

(** ** The accepted value is a number, and its scale position is in range *)

Lemma has_some_sign (x : spec_float) : x <> S754_nan -> exists s, has_sign s x.
Proof. destruct x as [s|s| |s m e]; intros H; try (exists s; reflexivity). congruence. Qed.

Lemma scaled_not_nan (v : float) :
  Prim2SF v <> S754_nan -> Prim2SF ((v - 10) / 30) <> S754_nan.
Proof.
  intros H. rewrite div_spec, sub_spec. unfold SF64div, SF64sub.
  change (Prim2SF 10) with (S754_finite false 5629499534213120 (-49)).
  change (Prim2SF 30) with (S754_finite false 8444249301319680 (-48)).
  destruct (has_some_sign _ (SFsub_finite_not_nan _ false 5629499534213120 (-49) H)) as [s Hs].
  exact (has_sign_not_nan _ _ (SFdiv_finite_sign s _ false _ _ Hs)).
Qed.

(** Strictly between two positive finite numbers: positive and finite. *)
Lemma between_positive (x : spec_float) (ml mh : positive) (el eh : Z) :
  SFltb (S754_finite false ml el) x = true ->
  SFltb x (S754_finite false mh eh) = true ->
  exists m e, x = S754_finite false m e.
Proof.
  destruct x as [s|s| |s m e]; unfold SFltb; cbn [SFcompare]; try discriminate.
  - destruct s; discriminate.
  - destruct s; [discriminate|]. intros _ _. eauto.
Qed.

Lemma nextBmi_not_nan (h w : float) :
  Dark.valid (Some h) (Some w) = true ->
  Prim2SF (Dark.nextBmi (Some h) (Some w)) <> S754_nan.
Proof.
  unfold Dark.valid, Dark.nextBmi, gt, lt, ToNumber, notNull. cbn [andb].
  rewrite !andb_true_iff, !ltb_spec. intros [[[H1 H2] H3] H4].
  change (Prim2SF 40) with (S754_finite false 5629499534213120 (-47)) in H1.
  change (Prim2SF 260) with (S754_finite false 4573968371548160 (-44)) in H2.
  change (Prim2SF 10) with (S754_finite false 5629499534213120 (-49)) in H3.
  change (Prim2SF 400) with (S754_finite false 7036874417766400 (-44)) in H4.
  destruct (between_positive _ _ _ _ _ H1 H2) as (mh & eh & Eh).
  destruct (between_positive _ _ _ _ _ H3 H4) as (mw & ew & Ew).
  rewrite div_spec, mul_spec, div_spec, Eh, Ew. unfold SF64div, SF64mul.
  change (Prim2SF 100) with (S754_finite false 7036874417766400 (-46)).
  apply (has_sign_not_nan (xorb false false)).
  apply SFdiv_by_signed, SFmul_self_sign.
  apply (SFdiv_finite_sign false _ false). reflexivity.
Qed.

Lemma clamp_in_range (q : float) :
  Prim2SF q <> S754_nan ->
  (0 <=? clamp q 0 1) = true /\ (clamp q 0 1 <=? 1) = true.
Proof.
  intros Hn. unfold clamp.
  destruct (compare_0_1 _ Hn) as (c0 & c1 & H0 & H1 & H01).
  destruct (q <=? 0) eqn:E0; [split; reflexivity|].
  destruct (1 <=? q) eqn:E1; [split; reflexivity|].
  rewrite leb_spec in E0, E1. unfold SFleb in E0, E1.
  rewrite (SFcompare_antisym (Prim2SF q) (Prim2SF 1)), H1 in E1. rewrite H0 in E0.
  rewrite !leb_spec. unfold SFleb.
  rewrite (SFcompare_antisym (Prim2SF q) (Prim2SF 0)), H0, H1.
  destruct c0; try discriminate E0. destruct c1; try discriminate E1.
  split; reflexivity.
Qed.

End Rounding.

(* ===================================================================== *)
(** * Parsing                                                             *)
(* ===================================================================== *)

Section Parsing.
Import JS.
Local Open Scope float_scope.

(** ** [replace] of the first comma *)

Lemma replace_comma_cons (c : code_unit) (t : jsstring) :
  replace (c :: t) (str ",") (str ".") =
  if (comma =? c)%N then period :: t else c :: replace t (str ",") (str ".").
Proof.
  change (str ",") with [comma]. change (str ".") with [period].
  cbn [replace startsWith List.length skipn app].
  rewrite andb_true_r. reflexivity.
Qed.

Lemma replace_no_comma (s : jsstring) :
  ~ In comma s -> replace s (str ",") (str ".") = s.
Proof.
  induction s as [|c t IH]; intros H.
  - reflexivity.
  - rewrite replace_comma_cons.
    destruct (N.eqb_spec comma c) as [E|Hc].
    + exfalso. apply H. left. now symmetry.
    + rewrite IH; [reflexivity|]. intros Hin. apply H. now right.
Qed.

Lemma replace_first_comma (a b : jsstring) :
  ~ In comma a ->
  replace (a ++ comma :: b) (str ",") (str ".") = a ++ period :: b.
Proof.
  induction a as [|c t IH]; intros H.
  - cbn [app]. rewrite replace_comma_cons, N.eqb_refl. reflexivity.
  - cbn [app]. rewrite replace_comma_cons.
    destruct (N.eqb_spec comma c) as [E|Hc].
    + exfalso. apply H. left. now symmetry.
    + rewrite IH; [reflexivity|]. intros Hin. apply H. now right.
Qed.

(** Two commas or more: one is left. *)
Lemma replace_leaves_comma (s : jsstring) :
  (2 <= count_occ N.eq_dec s comma)%nat -> In comma (replace s (str ",") (str ".")).
Proof.
  induction s as [|c t IH]; cbn [count_occ]; intros H.
  - lia.
  - rewrite replace_comma_cons.
    destruct (N.eq_dec c comma) as [->|Hc].
    + rewrite N.eqb_refl. right. apply (count_occ_In N.eq_dec). lia.
    + destruct (N.eqb_spec comma c) as [E|_]; [congruence|]. right. apply IH. exact H.
Qed.

(** ** [trim] *)

Lemma trimStart_blank (s : jsstring) :
  forallb isWhiteSpace s = true -> trimStart s = [].
Proof.
  induction s as [|c t IH]; cbn [forallb trimStart]; [reflexivity|].
  intros H. apply andb_true_iff in H as [Hc Ht]. rewrite Hc. auto.
Qed.

Lemma trimStart_app_blank (ws s : jsstring) :
  forallb isWhiteSpace ws = true -> trimStart (ws ++ s) = trimStart s.
Proof.
  induction ws as [|c t IH]; cbn [forallb app trimStart]; [reflexivity|].
  intros H. apply andb_true_iff in H as [Hc Ht]. rewrite Hc. auto.
Qed.

Lemma trimStart_keeps (c : code_unit) (s : jsstring) :
  isWhiteSpace c = false -> In c s -> In c (trimStart s).
Proof.
  intros Hc. induction s as [|x t IH]; cbn [trimStart]; [easy|].
  intros [->|Hin].
  - rewrite Hc. now left.
  - destruct (isWhiteSpace x); [auto | now right].
Qed.

Lemma trim_keeps (c : code_unit) (s : jsstring) :
  isWhiteSpace c = false -> In c s -> In c (trim s).
Proof.
  intros Hc Hin. unfold trim, trimEnd.
  apply in_rev. rewrite rev_involutive.
  apply trimStart_keeps; [exact Hc|]. apply -> in_rev.
  apply trimStart_keeps; assumption.
Qed.

Lemma forallb_rev (p : code_unit -> bool) (s : jsstring) :
  forallb p (rev s) = forallb p s.
Proof.
  induction s as [|c t IH]; [reflexivity|].
  cbn [rev forallb]. rewrite forallb_app, IH. cbn [forallb].
  rewrite andb_true_r. apply andb_comm.
Qed.

Lemma trim_blank (s : jsstring) : forallb isWhiteSpace s = true -> trim s = [].
Proof. intros H. unfold trim. rewrite (trimStart_blank s H). reflexivity. Qed.

Lemma trim_around (ws1 s ws2 : jsstring) :
  forallb isWhiteSpace ws1 = true -> forallb isWhiteSpace ws2 = true ->
  trim (ws1 ++ s ++ ws2) = trim s.
Proof.
  intros H1 H2. unfold trim. rewrite (trimStart_app_blank ws1 _ H1).
  (* trimEnd (trimStart (s ++ ws2)) = trimEnd (trimStart s) *)
  induction s as [|c t IH].
  - cbn [app trimStart]. rewrite (trimStart_blank ws2 H2). reflexivity.
  - cbn [app trimStart]. destruct (isWhiteSpace c); [exact IH|].
    unfold trimEnd. change (c :: t ++ ws2) with ((c :: t) ++ ws2).
    rewrite rev_app_distr, trimStart_app_blank; [reflexivity|].
    rewrite forallb_rev. exact H2.
Qed.

(** ** No comma in a numeric literal *)

Lemma digitValue_not_comma (radix : N) : digitValue radix comma = None.
Proof. reflexivity. Qed.

Lemma digits_no_comma (radix : N) (s : jsstring) (acc v : N) :
  digits radix acc s = Some v -> ~ In comma s.
Proof.
  revert acc. induction s as [|c t IH]; intros acc H; [easy|].
  cbn [digits] in H. destruct (digitValue radix c) as [d|] eqn:Ed; [|discriminate].
  intros [Hc|Hin].
  - subst c. rewrite digitValue_not_comma in Ed. discriminate.
  - exact (IH _ H Hin).
Qed.

Lemma span_no_comma (s a b : jsstring) :
  span isDecimalDigit s = (a, b) -> s = a ++ b /\ ~ In comma a.
Proof.
  revert a b. induction s as [|c t IH]; intros a b H; cbn [span] in H.
  - injection H as <- <-. split; [reflexivity | easy].
  - destruct (isDecimalDigit c) eqn:Ec.
    + destruct (span isDecimalDigit t) as [a' b'] eqn:Es.
      injection H as <- <-. destruct (IH _ _ eq_refl) as [-> Hn].
      split; [reflexivity|]. intros [Hc|Hin]; [|exact (Hn Hin)].
      subst c. discriminate Ec.
    + injection H as <- <-. split; [reflexivity | easy].
Qed.

Lemma signed_no_comma (s u : jsstring) (neg : bool) :
  signed s = (neg, u) -> In comma s -> In comma u.
Proof.
  unfold signed. destruct s as [|c r]; [intros _ []|].
  destruct (N.eqb_spec c plus_sign) as [->|_].
  - intros H. injection H as _ <-. intros [Hc|Hin]; [discriminate Hc | exact Hin].
  - destruct (N.eqb_spec c minus_sign) as [->|_].
    + intros H. injection H as _ <-. intros [Hc|Hin]; [discriminate Hc | exact Hin].
    + intros H. injection H as _ <-. auto.
Qed.

Lemma ExponentPart_no_comma (s : jsstring) (x : Z) :
  ExponentPart s = Some x -> ~ In comma s.
Proof.
  unfold ExponentPart. destruct s as [|c r]; [easy|].
  destruct ((c =? 101)%N || (c =? 69)%N) eqn:Ec; [|discriminate].
  destruct (signed r) as [neg ds] eqn:Es.
  destruct ds as [|d ds']; [discriminate|].
  destruct (digits 10 0 (d :: ds')) as [v|] eqn:Ed; [|discriminate].
  intros _ [Hc|Hin].
  - subst c. discriminate Ec.
  - exact (digits_no_comma _ _ _ _ Ed (signed_no_comma _ _ _ Es Hin)).
Qed.

Lemma StrUnsignedDecimalLiteral_no_comma (neg : bool) (u : jsstring) (v : number) :
  StrUnsignedDecimalLiteral neg u = Some v -> ~ In comma u.
Proof.
  unfold StrUnsignedDecimalLiteral.
  destruct (span isDecimalDigit u) as [ip r1] eqn:E1.
  destruct (span_no_comma _ _ _ E1) as [-> Hip].
  set (second := match r1 with
                 | c :: r => if (c =? period)%N then span isDecimalDigit r else ([], r1)
                 | [] => ([], r1)
                 end).
  destruct second as [fp r2] eqn:E2.
  assert (Hr1 : In comma r1 -> In comma fp \/ In comma r2).
  { subst second. destruct r1 as [|c r].
    - intros [].
    - destruct (N.eqb_spec c period) as [->|_].
      + destruct (span_no_comma _ _ _ E2) as [-> _].
        intros [Hc|Hin]; [discriminate Hc|]. apply in_app_or. exact Hin.
      + injection E2 as <- <-. auto. }
  assert (Hfp : ~ In comma fp).
  { subst second. destruct r1 as [|c r].
    - injection E2 as <- <-. easy.
    - destruct (c =? period)%N.
      + exact (proj2 (span_no_comma _ _ _ E2)).
      + injection E2 as <- <-. easy. }
  destruct (ip ++ fp) as [|d ds]; [discriminate|].
  destruct (digits 10 0 (d :: ds)) as [m|]; [|discriminate].
  destruct (ExponentPart r2) as [x|] eqn:Ex; [|discriminate].
  intros _ Hin. apply in_app_or in Hin as [Hin|Hin]; [exact (Hip Hin)|].
  destruct (Hr1 Hin) as [H|H]; [exact (Hfp H)|].
  exact (ExponentPart_no_comma _ _ Ex H).
Qed.

Lemma StrDecimalLiteral_no_comma (t : jsstring) (v : number) :
  StrDecimalLiteral t = Some v -> ~ In comma t.
Proof.
  unfold StrDecimalLiteral. destruct (signed t) as [neg u] eqn:Es.
  intros H Hin. pose proof (signed_no_comma _ _ _ Es Hin) as Hu.
  destruct (jsstring_eqb u (str "Infinity")) eqn:Ei.
  - clear H Es Hin.
    assert (Hlit : forall a b, jsstring_eqb a b = true -> a = b).
    { induction a as [|x a IH]; destruct b as [|y b]; cbn [jsstring_eqb];
        try discriminate; [reflexivity|].
      intros Hab. apply andb_true_iff in Hab as [Hx Hab].
      apply N.eqb_eq in Hx. subst y. f_equal. auto. }
    rewrite (Hlit _ _ Ei) in Hu. vm_compute in Hu. intuition discriminate.
  - exact (StrUnsignedDecimalLiteral_no_comma _ _ _ H Hu).
Qed.

Lemma NonDecimalIntegerLiteral_no_comma (t : jsstring) (v : number) :
  NonDecimalIntegerLiteral t = Some v -> ~ In comma t.
Proof.
  unfold NonDecimalIntegerLiteral.
  destruct t as [|z [|c ds]]; try discriminate.
  set (radix := if (c =? 98)%N || (c =? 66)%N then Some 2%N
                else if (c =? 111)%N || (c =? 79)%N then Some 8%N
                else if (c =? 120)%N || (c =? 88)%N then Some 16%N
                else None).
  destruct (N.eqb_spec z 48) as [->|_]; [|discriminate].
  destruct radix as [r|] eqn:Er; [|discriminate].
  destruct ds as [|d ds']; [discriminate|].
  destruct (digits r 0 (d :: ds')) as [n|] eqn:Ed; [|discriminate].
  intros _ [Hz|[Hc|Hin]].
  - discriminate Hz.
  - subst c radix. discriminate Er.
  - exact (digits_no_comma _ _ _ _ Ed Hin).
Qed.

Lemma Number_of_comma (s : jsstring) : In comma s -> Number s = nan.
Proof.
  intros Hin. unfold Number.
  pose proof (trim_keeps comma s eq_refl Hin) as Ht.
  destruct (trim s) as [|c t] eqn:E; [destruct Ht|].
  unfold StrNumericLiteral.
  destruct (NonDecimalIntegerLiteral (c :: t)) as [v|] eqn:E1.
  - destruct (NonDecimalIntegerLiteral_no_comma _ _ E1 Ht).
  - destruct (StrDecimalLiteral (c :: t)) as [v|] eqn:E2; [|reflexivity].
    destruct (StrDecimalLiteral_no_comma _ _ E2 Ht).
Qed.

(** ** [parseNumber] *)

Lemma blank_no_comma (ws : jsstring) : forallb isWhiteSpace ws = true -> ~ In comma ws.
Proof.
  intros H Hin. rewrite forallb_forall in H. specialize (H _ Hin). discriminate H.
Qed.

Lemma replace_app_no_comma (s w : jsstring) :
  ~ In comma w ->
  replace (s ++ w) (str ",") (str ".") = replace s (str ",") (str ".") ++ w.
Proof.
  intros Hw. induction s as [|c t IH]; cbn [app].
  - rewrite (replace_no_comma w Hw). reflexivity.
  - rewrite !replace_comma_cons. destruct (comma =? c)%N; [reflexivity|].
    rewrite IH. reflexivity.
Qed.

Lemma replace_no_comma_app (w s : jsstring) :
  ~ In comma w ->
  replace (w ++ s) (str ",") (str ".") = w ++ replace s (str ",") (str ".").
Proof.
  induction w as [|c t IH]; intros Hw; cbn [app]; [reflexivity|].
  rewrite replace_comma_cons.
  destruct (N.eqb_spec comma c) as [E|_].
  - exfalso. apply Hw. left. now symmetry.
  - rewrite IH; [reflexivity|]. intros Hin. apply Hw. now right.
Qed.

(** [parseNumber], by cases on the normalized text. *)
Lemma parseNumber_cases (s : jsstring) :
  Dark.parseNumber s =
  let t := trim (replace s (str ",") (str ".")) in
  match t with
  | [] => None
  | _ :: _ => if Number_isFinite (Number t) then Some (Number t) else None
  end.
Proof.
  unfold Dark.parseNumber. cbv zeta. destruct (trim _) as [|c t]; [reflexivity|].
  destruct (Number_isFinite _); reflexivity.
Qed.

Lemma Light_parseNumber_eq (s : jsstring) : Light.parseNumber s = Dark.parseNumber s.
Proof. reflexivity. Qed.

Lemma parseNumber_blank (s : jsstring) :
  forallb isWhiteSpace s = true -> Dark.parseNumber s = None.
Proof.
  intros H. rewrite parseNumber_cases. cbv zeta. rewrite (replace_no_comma s (blank_no_comma s H)),
    (trim_blank s H). reflexivity.
Qed.

Lemma parseNumber_comma_as_period (a b : jsstring) :
  ~ In comma a -> ~ In comma b ->
  Dark.parseNumber (a ++ comma :: b) = Dark.parseNumber (a ++ period :: b).
Proof.
  intros Ha Hb. rewrite !parseNumber_cases. cbv zeta. rewrite (replace_first_comma a b Ha).
  rewrite (replace_no_comma (a ++ period :: b)); [reflexivity|].
  intros Hin. apply in_app_or in Hin as [Hin|[Hp|Hin]]; [auto | discriminate Hp | auto].
Qed.

Lemma parseNumber_trims (ws1 s ws2 : jsstring) :
  forallb isWhiteSpace ws1 = true -> forallb isWhiteSpace ws2 = true ->
  Dark.parseNumber (ws1 ++ s ++ ws2) = Dark.parseNumber s.
Proof.
  intros H1 H2. rewrite !parseNumber_cases. cbv zeta.
  rewrite (replace_no_comma_app ws1 _ (blank_no_comma _ H1)).
  rewrite (replace_app_no_comma s ws2 (blank_no_comma _ H2)).
  rewrite (trim_around _ _ _ H1 H2). reflexivity.
Qed.

Lemma parseNumber_two_commas (s : jsstring) :
  (2 <= count_occ N.eq_dec s comma)%nat -> Dark.parseNumber s = None.
Proof.
  intros H. rewrite parseNumber_cases. cbv zeta.
  pose proof (trim_keeps comma _ eq_refl (replace_leaves_comma s H)) as Hin.
  destruct (trim _) as [|c t]; [reflexivity|].
  rewrite (Number_of_comma _ Hin). reflexivity.
Qed.

(** C5. [parseNumber] is a function of the text alone, the same on both
    screens: empty and white-space-only text is absent; otherwise the result
    is the number [Number] reads from the normalized text if that is finite,
    and absent if it is not (non-numeric text reads as NaN, "1e400" as
    Infinity); a comma used as decimal separator is read as a period and
    white space around the text is dropped; parse("") and parse("  ") are
    absent, parse("68") is 68, parse("68,5") is 68.5, parse("abc") and
    parse("1e400") are absent. *)
Theorem parse_contract :
  (forall s : jsstring, Light.parseNumber s = Dark.parseNumber s)
  /\ (forall s : jsstring, forallb isWhiteSpace s = true -> Dark.parseNumber s = None)
  /\ (forall s : jsstring,
        Dark.parseNumber s =
        let t := trim (replace s (str ",") (str ".")) in
        match t with
        | [] => None
        | _ :: _ => if Number_isFinite (Number t) then Some (Number t) else None
        end)
  /\ (forall a b : jsstring, ~ In comma a -> ~ In comma b ->
        Dark.parseNumber (a ++ comma :: b) = Dark.parseNumber (a ++ period :: b))
  /\ (forall ws1 s ws2 : jsstring,
        forallb isWhiteSpace ws1 = true -> forallb isWhiteSpace ws2 = true ->
        Dark.parseNumber (ws1 ++ s ++ ws2) = Dark.parseNumber s)
  /\ (Dark.parseNumber (str "") = None
      /\ Dark.parseNumber (str "  ") = None
      /\ Dark.parseNumber (str "68") = Some 68
      /\ Dark.parseNumber (str "68,5") = Some 68.5
      /\ Dark.parseNumber (str "abc") = None
      /\ Dark.parseNumber (str "1e400") = None)
  /\ (Number (str "abc") = nan /\ Number (str "1e400") = infinity).
Proof.
  split; [exact Light_parseNumber_eq|].
  split; [exact parseNumber_blank|].
  split; [exact parseNumber_cases|].
  split; [exact parseNumber_comma_as_period|].
  split; [exact parseNumber_trims|].
  split; repeat apply conj; vm_compute; reflexivity.
Qed.

Lemma parse_contract_witness :
  Dark.parseNumber (str "  ") = None
  /\ Dark.parseNumber (str "68" ++ comma :: str "5") = Dark.parseNumber (str "68" ++ period :: str "5")
  /\ Dark.parseNumber (str " " ++ str "68" ++ str "  ") = Dark.parseNumber (str "68").
Proof.
  pose proof parse_contract as [_ [Hb [_ [Hc [Ht _]]]]].
  refine (conj (Hb (str "  ") eq_refl) (conj (Hc (str "68") (str "5") _ _)
            (Ht (str " ") (str "68") (str "  ") eq_refl eq_refl)));
    vm_compute; intuition discriminate.
Defined.

(** C10. The normalization replaces the first comma only: the text after it
    is left as it is; a text with one comma parses as the same text with a
    period there, so parse("1,234") is 1.234 (the binary64 number nearest to
    it, 0x1.3be76c8b43958p+0); and every text with two commas or more is
    absent, as is "1,2,3". *)
Theorem comma_only_first :
  (forall a b : jsstring, ~ In comma a ->
      replace (a ++ comma :: b) (str ",") (str ".") = a ++ period :: b)
  /\ (forall a b : jsstring, ~ In comma a -> ~ In comma b ->
      Dark.parseNumber (a ++ comma :: b) = Dark.parseNumber (a ++ period :: b)
      /\ Light.parseNumber (a ++ comma :: b) = Light.parseNumber (a ++ period :: b))
  /\ (Dark.parseNumber (str "1,234") = Some 0x1.3be76c8b43958p+0
      /\ Light.parseNumber (str "1,234") = Some 0x1.3be76c8b43958p+0
      /\ Dark.parseNumber (str "1.234") = Some 0x1.3be76c8b43958p+0)
  /\ (forall s : jsstring, (2 <= count_occ N.eq_dec s comma)%nat ->
      Dark.parseNumber s = None /\ Light.parseNumber s = None)
  /\ (Dark.parseNumber (str "1,2,3") = None /\ Light.parseNumber (str "1,2,3") = None).
Proof.
  split; [exact replace_first_comma|].
  split; [intros a b Ha Hb; split; exact (parseNumber_comma_as_period a b Ha Hb)|].
  split; [repeat apply conj; vm_compute; reflexivity|].
  split; [intros s H; split; exact (parseNumber_two_commas s H)|].
  split; vm_compute; reflexivity.
Qed.

Lemma comma_only_first_witness :
  replace (str "1" ++ comma :: str "2,3") (str ",") (str ".") = str "1" ++ period :: str "2,3"
  /\ Dark.parseNumber (str "1,2,3") = None.
Proof.
  pose proof comma_only_first as [Hr [_ [_ [H2 _]]]].
  refine (conj (Hr (str "1") (str "2,3") _) (proj1 (H2 (str "1,2,3") _))).
  - vm_compute. intuition discriminate.
  - vm_compute. lia.
Defined.

End Parsing.

(* ===================================================================== *)
(** * Validation and the BMI formula                                      *)
(* ===================================================================== *)

Section Evaluate.
Import JS.
Local Open Scope float_scope.

Lemma valid_spec (h w : option number) :
  Dark.valid h w = true <-> strictly_within 40 260 h /\ strictly_within 10 400 w.
Proof.
  unfold Dark.valid, strictly_within, gt, lt, ToNumber, notNull.
  destruct h as [h|], w as [w|]; simpl;
    rewrite ?andb_true_iff; intuition congruence.
Qed.

Lemma Light_valid_eq (h w : option number) : Light.valid h w = Dark.valid h w.
Proof. reflexivity. Qed.

Lemma Dark_evaluate_rejected (h w : option number) :
  Dark.evaluate h w = Rejected <-> Dark.valid h w = false.
Proof.
  unfold Dark.evaluate. destruct (Dark.valid h w); simpl; split; congruence.
Qed.

Lemma Light_evaluate_rejected (h w : option number) :
  Light.evaluate h w = Rejected <-> Dark.valid h w = false.
Proof.
  unfold Light.evaluate. change Light.valid with Dark.valid.
  destruct (Dark.valid h w); simpl; split; congruence.
Qed.

Lemma invalid_spec (h w : option number) :
  Dark.valid h w = false <->
  h = None \/ w = None \/ ~ strictly_within 40 260 h \/ ~ strictly_within 10 400 w.
Proof.
  rewrite <- not_true_iff_false, valid_spec. split.
  - intros H. destruct h as [h|]; [|now left]. destruct w as [w|]; [|now right; left].
    simpl in *.
    destruct (40 <? h) eqn:E1; [|right; right; left; intros [? _]; congruence].
    destruct (h <? 260) eqn:E2; [|right; right; left; intros [_ ?]; congruence].
    right; right; right. intros Hw. apply H. auto.
  - intros [-> | [-> | [H | H]]] [H1 H2]; simpl in *; tauto.
Qed.

Lemma Dark_onCalculate_bmi (st : Dark.state) :
  Dark.bmi (fst (Dark.onCalculate st)) =
  if Dark.valid (Dark.heightValue st) (Dark.weightValue st)
  then Some (Dark.nextBmi (Dark.heightValue st) (Dark.weightValue st)) else None.
Proof. unfold Dark.onCalculate. destruct (Dark.valid _ _); reflexivity. Qed.

Lemma Light_onCalculate_bmi (st : Light.state) :
  Light.bmi (fst (Light.onCalculate st)) =
  if Dark.valid (Light.heightValue st) (Light.weightValue st)
  then Some (Dark.nextBmi (Light.heightValue st) (Light.weightValue st)) else None.
Proof. unfold Light.onCalculate. change Light.valid with Dark.valid. destruct (Dark.valid _ _); reflexivity. Qed.

(** C2. [evaluate] is Rejected exactly when an input is absent, or the height
    is not strictly within (40, 260), or the weight is not strictly within
    (10, 400); the four boundary values are rejected; every input has a
    definite outcome (the function is total, nothing is thrown); and the
    handler stores no result exactly when the outcome is Rejected. *)
Theorem rejected_iff_out_of_bounds :
  (forall h w : option number,
      Dark.evaluate h w = Rejected <->
      h = None \/ w = None \/ ~ strictly_within 40 260 h \/ ~ strictly_within 10 400 w)
  /\ (forall h w : option number,
      Light.evaluate h w = Rejected <->
      h = None \/ w = None \/ ~ strictly_within 40 260 h \/ ~ strictly_within 10 400 w)
  /\ (Dark.evaluate (Some 40) (Some 70) = Rejected
      /\ Dark.evaluate (Some 260) (Some 70) = Rejected
      /\ Dark.evaluate (Some 170) (Some 10) = Rejected
      /\ Dark.evaluate (Some 170) (Some 400) = Rejected)
  /\ (Light.evaluate (Some 40) (Some 70) = Rejected
      /\ Light.evaluate (Some 260) (Some 70) = Rejected
      /\ Light.evaluate (Some 170) (Some 10) = Rejected
      /\ Light.evaluate (Some 170) (Some 400) = Rejected)
  /\ (forall h w : option number,
       (Dark.evaluate h w = Rejected \/ exists v c p, Dark.evaluate h w = Accepted v c p)
       /\ (Light.evaluate h w = Rejected \/ exists v c p, Light.evaluate h w = Accepted v c p))
  /\ (forall st : Dark.state,
       Dark.evaluate (Dark.heightValue st) (Dark.weightValue st) = Rejected <->
       Dark.bmi (fst (Dark.onCalculate st)) = None)
  /\ (forall st : Light.state,
       Light.evaluate (Light.heightValue st) (Light.weightValue st) = Rejected <->
       Light.bmi (fst (Light.onCalculate st)) = None).
Proof.
  split; [|split; [|split; [|split; [|split; [|split]]]]].
  - intros h w. etransitivity; [apply Dark_evaluate_rejected | apply invalid_spec].
  - intros h w. etransitivity; [apply Light_evaluate_rejected | apply invalid_spec].
  - repeat apply conj; reflexivity.
  - repeat apply conj; reflexivity.
  - intros h w. unfold Dark.evaluate, Light.evaluate. change Light.valid with Dark.valid.
    destruct (Dark.valid h w); simpl; split; eauto.
  - intros st. etransitivity; [apply Dark_evaluate_rejected|].
    rewrite Dark_onCalculate_bmi. destruct (Dark.valid _ _); split; congruence.
  - intros st. etransitivity; [apply Light_evaluate_rejected|].
    rewrite Light_onCalculate_bmi. destruct (Dark.valid _ _); split; congruence.
Qed.

Lemma valid_in_range (h w : number) :
  (40 <? h) = true -> (h <? 260) = true -> (10 <? w) = true -> (w <? 400) = true ->
  Dark.valid (Some h) (Some w) = true.
Proof. intros. apply valid_spec. simpl. auto. Qed.

(** C1. For present values with height strictly between 40 and 260 and weight
    strictly between 10 and 400, the outcome is Accepted and its value, which
    [onCalculate] stores, is [weight / ((height/100) * (height/100))] in
    binary64 arithmetic, with no display rounding: for 172 cm and 68 kg the
    stored number is 22.985397512168742 while the card shows "23.0". *)
Theorem accepted_bmi_is_formula :
  (forall h w : number,
     (40 <? h) = true -> (h <? 260) = true -> (10 <? w) = true -> (w <? 400) = true ->
     let bmi := w / ((h / 100) * (h / 100)) in
     Dark.evaluate (Some h) (Some w)
     = Accepted bmi (Dark.getBmiCategory bmi) (Dark.normalized bmi)
     /\ Light.evaluate (Some h) (Some w)
        = Accepted bmi (Light.getBmiCategory bmi) (Light.normalized bmi)
     /\ (forall st, Dark.heightValue st = Some h -> Dark.weightValue st = Some w ->
                    Dark.bmi (fst (Dark.onCalculate st)) = Some bmi)
     /\ (forall st, Light.heightValue st = Some h -> Light.weightValue st = Some w ->
                    Light.bmi (fst (Light.onCalculate st)) = Some bmi))
  /\ (Dark.bmi (fst (Dark.onCalculate (dark_state "172" "68"))) = Some 0x1.6fc4302e85313p+4
      /\ Dark.bmiText (fst (Dark.onCalculate (dark_state "172" "68"))) = str "23.0")
  /\ (Light.bmi (fst (Light.onCalculate (light_state "172" "68"))) = Some 0x1.6fc4302e85313p+4
      /\ Light.bmiText (fst (Light.onCalculate (light_state "172" "68"))) = str "23.0").
Proof.
  split; [|split; split; vm_compute; reflexivity].
  intros h w H1 H2 H3 H4 bmi.
  pose proof (valid_in_range h w H1 H2 H3 H4) as Hv.
  repeat apply conj.
  - unfold Dark.evaluate. rewrite Hv. reflexivity.
  - unfold Light.evaluate. change Light.valid with Dark.valid. rewrite Hv. reflexivity.
  - intros st Hh Hw. rewrite Dark_onCalculate_bmi, Hh, Hw, Hv. reflexivity.
  - intros st Hh Hw. rewrite Light_onCalculate_bmi, Hh, Hw, Hv. reflexivity.
Qed.

Lemma accepted_bmi_witness :
  Dark.bmi (fst (Dark.onCalculate (dark_state "172" "68"))) = Some (68 / ((172 / 100) * (172 / 100)))
  /\ Light.bmi (fst (Light.onCalculate (light_state "172" "68"))) = Some (68 / ((172 / 100) * (172 / 100))).
Proof.
  pose proof (proj1 accepted_bmi_is_formula 172 68 eq_refl eq_refl eq_refl eq_refl)
    as [_ [_ [HD HL]]].
  split.
  - apply HD; vm_compute; reflexivity.
  - apply HL; vm_compute; reflexivity.
Defined.
End Evaluate.

(* ===================================================================== *)
(** * The scale position                                                  *)
(* ===================================================================== *)

Section ScalePosition.
Import JS.
Local Open Scope float_scope.

Lemma accepted_scale_position (h w : option number) (v : number) (c : Dark.BmiCategory)
    (p : number) :
  Dark.evaluate h w = Accepted v c p ->
  p = clamp ((v - 10) / 30) 0 1 /\ (0 <=? p) = true /\ (p <=? 1) = true.
Proof.
  unfold Dark.evaluate. destruct (Dark.valid h w) eqn:Hv; cbn [negb]; [|discriminate].
  intros H. injection H as <- _ <-.
  rewrite normalized_clamp. split; [reflexivity|].
  apply clamp_in_range, scaled_not_nan.
  destruct h as [h|]; [|discriminate Hv].
  destruct w as [w|]; [|unfold Dark.valid in Hv; cbn [notNull andb] in Hv; discriminate Hv].
  apply nextBmi_not_nan. exact Hv.
Qed.

Lemma Light_accepted_value (h w : option number) (v : number) (c : Light.BmiCategory)
    (p : number) :
  Light.evaluate h w = Accepted v c p ->
  Dark.evaluate h w = Accepted v (Dark.getBmiCategory v) p.
Proof.
  unfold Light.evaluate, Dark.evaluate. change Light.valid with Dark.valid.
  destruct (Dark.valid h w); cbn [negb]; [|discriminate].
  intros H. injection H as <- _ <-. reflexivity.
Qed.

(** C4. The scale position is [clamp((bmi - 10) / 30, 0, 1)]; for every
    accepted result it lies in [0, 1]; 10 maps to 0, 25 to 0.5 and 40 to 1;
    every bmi below 10 maps to 0 and every bmi above 40 to 1 (5 and 55 among
    them), on both screens. *)
Theorem scale_position_clamped :
  (forall x : number,
      Dark.normalized x = clamp ((x - 10) / 30) 0 1
      /\ Light.normalized x = clamp ((x - 10) / 30) 0 1)
  /\ (forall (h w : option number) v c p,
        Dark.evaluate h w = Accepted v c p ->
        p = clamp ((v - 10) / 30) 0 1 /\ (0 <=? p) = true /\ (p <=? 1) = true)
  /\ (forall (h w : option number) v c p,
        Light.evaluate h w = Accepted v c p ->
        p = clamp ((v - 10) / 30) 0 1 /\ (0 <=? p) = true /\ (p <=? 1) = true)
  /\ (Dark.normalized 10 = 0 /\ Dark.normalized 25 = 0.5 /\ Dark.normalized 40 = 1
      /\ Dark.normalized 5 = 0 /\ Dark.normalized 55 = 1)
  /\ (Light.normalized 10 = 0 /\ Light.normalized 25 = 0.5 /\ Light.normalized 40 = 1
      /\ Light.normalized 5 = 0 /\ Light.normalized 55 = 1)
  /\ (forall x : number, (x <? 10) = true ->
        Dark.normalized x = 0 /\ Light.normalized x = 0)
  /\ (forall x : number, (40 <? x) = true ->
        Dark.normalized x = 1 /\ Light.normalized x = 1).
Proof.
  split; [intros x; split; exact (normalized_clamp x)|].
  split; [exact accepted_scale_position|].
  split; [intros h w v c p H; exact (accepted_scale_position _ _ _ _ _ (Light_accepted_value _ _ _ _ _ H))|].
  split; [repeat apply conj; reflexivity|].
  split; [repeat apply conj; reflexivity|].
  split; [intros x H; split; exact (below_10_saturates x H)|].
  intros x H; split; exact (above_40_saturates x H).
Qed.

Lemma scale_position_witness :
  Dark.normalized 0x1.aaaaaaaaaaaabp+5 = 1
  /\ Light.normalized 0x1.a3ca7ee8193fbp+0 = 0
  /\ (0 <=? 0x1.bb3c22856068fp-2) = true.
Proof.
  pose proof scale_position_clamped as [_ [HD [_ [_ [_ [Hlo Hhi]]]]]].
  assert (HA : Dark.evaluate (Some 172) (Some 68)
               = Accepted 0x1.6fc4302e85313p+4 (Dark.getBmiCategory 0x1.6fc4302e85313p+4)
                   0x1.bb3c22856068fp-2) by (vm_compute; reflexivity).
  exact (conj (proj1 (Hhi 0x1.aaaaaaaaaaaabp+5 eq_refl))
           (conj (proj2 (Hlo 0x1.a3ca7ee8193fbp+0 eq_refl))
              (proj1 (proj2 (HD _ _ _ _ _ HA))))).
Defined.

End ScalePosition.

(* ===================================================================== *)
(** * Classification                                                      *)
(* ===================================================================== *)

Section Classification.
Import JS.
Local Open Scope float_scope.

Lemma Dark_label_cases (bmi : number) :
  Dark.label (Dark.getBmiCategory bmi) =
  if bmi <? 18.5 then Underweight else if bmi <? 25 then Normal
  else if bmi <? 30 then Overweight else Obese.
Proof.
  unfold Dark.getBmiCategory, lt.
  destruct (bmi <? 18.5); [reflexivity|].
  destruct (bmi <? 25); [reflexivity|].
  destruct (bmi <? 30); reflexivity.
Qed.

Lemma Light_label_cases (bmi : number) :
  Light.label (Light.getBmiCategory bmi) =
  if bmi <? 18.5 then Underweight else if bmi <? 25 then Normal
  else if bmi <? 30 then Overweight else Obese.
Proof.
  unfold Light.getBmiCategory, lt.
  destruct (bmi <? 18.5); [reflexivity|].
  destruct (bmi <? 25); [reflexivity|].
  destruct (bmi <? 30); reflexivity.
Qed.

(** C3. Classification uses half-open intervals with inclusive lower bounds:
    below 18.5 is Underweight, from 18.5 to below 25 Normal, from 25 to below
    30 Overweight, 30 and above Obese, on both screens; 18.5 itself is Normal,
    25 Overweight and 30 Obese. *)
Theorem classification_half_open (bmi : number) :
  ((bmi <? 18.5) = true ->
     Dark.label (Dark.getBmiCategory bmi) = Underweight
     /\ Light.label (Light.getBmiCategory bmi) = Underweight)
  /\ ((18.5 <=? bmi) = true -> (bmi <? 25) = true ->
     Dark.label (Dark.getBmiCategory bmi) = Normal
     /\ Light.label (Light.getBmiCategory bmi) = Normal)
  /\ ((25 <=? bmi) = true -> (bmi <? 30) = true ->
     Dark.label (Dark.getBmiCategory bmi) = Overweight
     /\ Light.label (Light.getBmiCategory bmi) = Overweight)
  /\ ((30 <=? bmi) = true ->
     Dark.label (Dark.getBmiCategory bmi) = Obese
     /\ Light.label (Light.getBmiCategory bmi) = Obese)
  /\ (Dark.label (Dark.getBmiCategory 18.5) = Normal
      /\ Light.label (Light.getBmiCategory 18.5) = Normal)
  /\ (Dark.label (Dark.getBmiCategory 25) = Overweight
      /\ Light.label (Light.getBmiCategory 25) = Overweight)
  /\ (Dark.label (Dark.getBmiCategory 30) = Obese
      /\ Light.label (Light.getBmiCategory 30) = Obese).
Proof.
  repeat (intros; apply conj); intros;
    rewrite ?Dark_label_cases, ?Light_label_cases;
    repeat match goal with
    | H : (30 <=? bmi) = true |- _ =>
      rewrite (ltb_below bmi 18.5 30 eq_refl H), (ltb_below bmi 25 30 eq_refl H),
        (leb_not_ltb _ _ H); clear H
    | H : (25 <=? bmi) = true |- _ =>
      rewrite (ltb_below bmi 18.5 25 eq_refl H), (leb_not_ltb _ _ H); clear H
    | H : (18.5 <=? bmi) = true |- _ => rewrite (leb_not_ltb _ _ H); clear H
    | H : (bmi <? _) = true |- _ => rewrite H; clear H
    end; reflexivity.
Qed.

Lemma classification_witness :
  Dark.label (Dark.getBmiCategory 17) = Underweight
  /\ Light.label (Light.getBmiCategory 22) = Normal
  /\ Dark.label (Dark.getBmiCategory 27.5) = Overweight
  /\ Light.label (Light.getBmiCategory 31) = Obese.
Proof.
  pose proof (classification_half_open 17) as [H17 _].
  pose proof (classification_half_open 22) as [_ [H22 _]].
  pose proof (classification_half_open 27.5) as [_ [_ [H27 _]]].
  pose proof (classification_half_open 31) as [_ [_ [_ [H31 _]]]].
  exact (conj (proj1 (H17 eq_refl))
           (conj (proj2 (H22 eq_refl eq_refl))
              (conj (proj1 (H27 eq_refl eq_refl)) (proj2 (H31 eq_refl))))).
Defined.

End Classification.

(* ===================================================================== *)
(** * The two screens compared                                            *)
(* ===================================================================== *)

Section Variants.
Import JS.
Local Open Scope float_scope.

Lemma categories_agree (bmi : number) :
  Dark.label (Dark.getBmiCategory bmi) = Light.label (Light.getBmiCategory bmi)
  /\ Dark.rangeLabel (Dark.getBmiCategory bmi) = Light.rangeLabel (Light.getBmiCategory bmi)
  /\ Dark.hint (Dark.getBmiCategory bmi) = Light.hint (Light.getBmiCategory bmi).
Proof.
  unfold Dark.getBmiCategory, Light.getBmiCategory.
  destruct (lt bmi 18.5); [|destruct (lt bmi 25); [|destruct (lt bmi 30)]];
    cbn [Dark.label Dark.rangeLabel Dark.hint Light.label Light.rangeLabel Light.hint];
    repeat apply conj; reflexivity.
Qed.

(** C9. The two screens implement the same business logic: their parse
    functions agree on every text, their classifiers give the same label,
    range string and hint for every BMI, their rounding functions give the
    same display string, and for every pair of parsed values (and every pair
    of texts) their calculate handlers accept or reject alike and compute the
    same bmi and the same normalized scale position. *)
Theorem screens_share_business_logic :
  (forall input : jsstring, Dark.parseNumber input = Light.parseNumber input)
  /\ (forall bmi : number,
        Dark.label (Dark.getBmiCategory bmi) = Light.label (Light.getBmiCategory bmi)
        /\ Dark.rangeLabel (Dark.getBmiCategory bmi) = Light.rangeLabel (Light.getBmiCategory bmi)
        /\ Dark.hint (Dark.getBmiCategory bmi) = Light.hint (Light.getBmiCategory bmi))
  /\ (forall n : number, Dark.round1 n = Light.round1 n)
  /\ (forall h w : option number,
        match Dark.evaluate h w, Light.evaluate h w with
        | Rejected, Rejected => True
        | Accepted v _ p, Accepted v' _ p' => v = v' /\ p = p'
        | _, _ => False
        end)
  /\ (forall (height weight : jsstring) (b : option number),
        let dark := {| Dark.heightCm := height; Dark.weightKg := weight; Dark.bmi := b |} in
        let light := {| Light.heightCm := height; Light.weightKg := weight; Light.bmi := b |} in
        Dark.bmi (fst (Dark.onCalculate dark)) = Light.bmi (fst (Light.onCalculate light))
        /\ Dark.targets Dark.progress (snd (Dark.onCalculate dark))
           = Light.targets Light.progress (snd (Light.onCalculate light))).
Proof.
  split; [|split; [|split; [|split]]].
  - reflexivity.
  - exact categories_agree.
  - reflexivity.
  - intros h w. unfold Dark.evaluate, Light.evaluate.
    change Light.valid with Dark.valid.
    destruct (Dark.valid h w); simpl; auto.
  - intros height weight b dark light.
    unfold Dark.onCalculate, Light.onCalculate.
    change (Light.valid (Light.heightValue light) (Light.weightValue light))
      with (Dark.valid (Dark.heightValue dark) (Dark.weightValue dark)).
    destruct (Dark.valid _ _); split.
    + reflexivity.
    + reflexivity.
    + reflexivity.
    + reflexivity.
Qed.

End Variants.

(* ===================================================================== *)
(** * Handlers, display state and animations                              *)
(* ===================================================================== *)

Section Feedback.
Import JS.
Local Open Scope float_scope.

(** C6. The display state, read off a handler's result, is one of Idle,
    Invalid and Result; Idle is initial; from every state [onCalculate] with a
    Rejected outcome leads to Invalid, emitting the shake and retracting the
    result card and the fill to 0, and with an Accepted outcome leads to
    Result carrying that value and category (the fill moving to its scale
    position); [onReset] leads to Idle, clears both texts and retracts card
    and fill to 0; and no state is terminal: from every state each of the
    three is one event away. *)
Theorem display_state_machine :
  (Dark.display (Dark.initial, []) = Idle /\ Light.display (Light.initial, []) = Idle)
  /\ (forall st : Dark.state,
        let r := Dark.onCalculate st in
        match Dark.evaluate (Dark.heightValue st) (Dark.weightValue st) with
        | Rejected =>
          Dark.display r = Invalid
          /\ Dark.shake_legs (snd r) <> []
          /\ Dark.targets Dark.reveal (snd r) = [0]
          /\ Dark.targets Dark.progress (snd r) = [0]
        | Accepted v c p =>
          Dark.display r = Result v c
          /\ Dark.bmi (fst r) = Some v
          /\ Dark.category (fst r) = Some c
          /\ Dark.targets Dark.progress (snd r) = [p]
        end)
  /\ (forall st : Light.state,
        let r := Light.onCalculate st in
        match Light.evaluate (Light.heightValue st) (Light.weightValue st) with
        | Rejected =>
          Light.display r = Invalid
          /\ Light.shake_legs (snd r) <> []
          /\ Light.targets Light.reveal (snd r) = [0]
          /\ Light.targets Light.progress (snd r) = [0]
        | Accepted v c p =>
          Light.display r = Result v c
          /\ Light.bmi (fst r) = Some v
          /\ Light.category (fst r) = Some c
          /\ Light.targets Light.progress (snd r) = [p]
        end)
  /\ (forall st : Dark.state,
        let r := Dark.onReset st in
        Dark.display r = Idle
        /\ Dark.heightCm (fst r) = [] /\ Dark.weightKg (fst r) = []
        /\ Dark.targets Dark.reveal (snd r) = [0]
        /\ Dark.targets Dark.progress (snd r) = [0])
  /\ (forall st : Light.state,
        let r := Light.onReset st in
        Light.display r = Idle
        /\ Light.heightCm (fst r) = [] /\ Light.weightKg (fst r) = []
        /\ Light.targets Light.reveal (snd r) = [0]
        /\ Light.targets Light.progress (snd r) = [0])
  /\ (forall st : Dark.state,
        Dark.display (Dark.onReset st) = Idle
        /\ Dark.display
             (Dark.onCalculate (Dark.setWeightKg (str "70") (Dark.setHeightCm (str "30") st)))
           = Invalid
        /\ exists v c,
             Dark.display
               (Dark.onCalculate (Dark.setWeightKg (str "68") (Dark.setHeightCm (str "172") st)))
             = Result v c)
  /\ (forall st : Light.state,
        Light.display (Light.onReset st) = Idle
        /\ Light.display
             (Light.onCalculate (Light.setWeightKg (str "70") (Light.setHeightCm (str "30") st)))
           = Invalid
        /\ exists v c,
             Light.display
               (Light.onCalculate (Light.setWeightKg (str "68") (Light.setHeightCm (str "172") st)))
             = Result v c).
Proof.
  split; [split; reflexivity|].
  split; [|split; [|split; [|split; [|split]]]].
  - intros st r. subst r. unfold Dark.evaluate, Dark.onCalculate.
    destruct (Dark.valid _ _); cbn [negb]; repeat apply conj;
      try reflexivity; try (vm_compute; discriminate).
  - intros st r. subst r. unfold Light.evaluate, Light.onCalculate.
    destruct (Light.valid _ _); cbn [negb]; repeat apply conj;
      try reflexivity; try (vm_compute; discriminate).
  - intros st r. repeat apply conj; reflexivity.
  - intros st r. repeat apply conj; reflexivity.
  - intros st. split; [reflexivity|]. split.
    + destruct st as [h w b]. vm_compute. reflexivity.
    + destruct st as [h w b]. eexists. eexists. vm_compute. reflexivity.
  - intros st. split; [reflexivity|]. split.
    + destruct st as [h w b]. vm_compute. reflexivity.
    + destruct st as [h w b]. eexists. eexists. vm_compute. reflexivity.
Qed.

Lemma Dark_rejected_result (st : Dark.state) :
  Dark.evaluate (Dark.heightValue st) (Dark.weightValue st) = Rejected ->
  Dark.onCalculate st =
  (Dark.setBmi None st,
   Dark.triggerInvalidShake
     ++ [Dark.Assign Dark.reveal (Dark.withTiming 0 180 None);
         Dark.Assign Dark.progress (Dark.withTiming 0 180 None)]).
Proof.
  unfold Dark.evaluate, Dark.onCalculate.
  destruct (Dark.valid _ _); cbn [negb]; [discriminate | reflexivity].
Qed.

Lemma Light_rejected_result (st : Light.state) :
  Light.evaluate (Light.heightValue st) (Light.weightValue st) = Rejected ->
  Light.onCalculate st =
  (Light.setBmi None st,
   Light.triggerInvalidShake
     ++ [Light.setValue Light.indicatorPop 0;
         Light.start (Light.parallel
                        [Light.timing Light.reveal 0 160 true;
                         Light.timing Light.progress 0 180 false])]).
Proof.
  unfold Light.evaluate, Light.onCalculate.
  destruct (Light.valid _ _); cbn [negb]; [discriminate | reflexivity].
Qed.

(** C8. On every rejected calculation, whatever the state was, the shake is
    a sequence of five timed legs (to -10, 10, -8, 8 and 0, 60 ms each: signs
    alternating, magnitudes falling, 300 ms in total), the result card and the
    scale fill are driven to 0, and calculating again from the resulting state
    emits the very same effects and leaves the state as it is. *)
Theorem rejection_shakes_and_collapses :
  (List.length five_legs = 5%nat
   /\ total_duration five_legs = 300
   /\ alternates five_legs = true
   /\ magnitudes_fall five_legs = true)
  /\ (forall st : Dark.state,
        Dark.evaluate (Dark.heightValue st) (Dark.weightValue st) = Rejected ->
        let r := Dark.onCalculate st in
        Dark.shake_legs (snd r) = five_legs
        /\ Dark.targets Dark.reveal (snd r) = [0]
        /\ Dark.targets Dark.progress (snd r) = [0]
        /\ Dark.bmi (fst r) = None
        /\ Dark.onCalculate (fst r) = r)
  /\ (forall st : Light.state,
        Light.evaluate (Light.heightValue st) (Light.weightValue st) = Rejected ->
        let r := Light.onCalculate st in
        Light.shake_legs (snd r) = five_legs
        /\ Light.targets Light.reveal (snd r) = [0]
        /\ Light.targets Light.progress (snd r) = [0]
        /\ Light.bmi (fst r) = None
        /\ Light.onCalculate (fst r) = r).
Proof.
  split; [repeat apply conj; reflexivity|]. split.
  - intros st H r. subst r. rewrite (Dark_rejected_result st H).
    repeat apply conj; try reflexivity.
    exact (Dark_rejected_result (Dark.setBmi None st) H).
  - intros st H r. subst r. rewrite (Light_rejected_result st H).
    repeat apply conj; try reflexivity.
    exact (Light_rejected_result (Light.setBmi None st) H).
Qed.

Lemma rejection_witness :
  Dark.shake_legs (snd (Dark.onCalculate (dark_state "30" "70"))) = five_legs
  /\ Light.shake_legs (snd (Light.onCalculate (light_state "30" "70"))) = five_legs.
Proof.
  assert (HD : Dark.evaluate (Dark.heightValue (dark_state "30" "70"))
                 (Dark.weightValue (dark_state "30" "70")) = Rejected)
    by (vm_compute; reflexivity).
  assert (HL : Light.evaluate (Light.heightValue (light_state "30" "70"))
                 (Light.weightValue (light_state "30" "70")) = Rejected)
    by (vm_compute; reflexivity).
  exact (conj (proj1 (proj1 (proj2 rejection_shakes_and_collapses) _ HD))
           (proj1 (proj2 (proj2 rejection_shakes_and_collapses) _ HL))).
Defined.

Lemma zero_is_underweight (v : number) : (v =? 0) = true -> (v <? 18.5) = true.
Proof.
  rewrite eqb_spec, ltb_spec. unfold SFeqb, SFltb.
  replace (Prim2SF 0) with (S754_zero false) by reflexivity.
  destruct (Prim2SF v) as [s|s| |s m e]; cbn [SFcompare].
  - reflexivity.
  - destruct s; discriminate.
  - discriminate.
  - destruct s; discriminate.
Qed.

Lemma bmiColor_band (st : Dark.state) (v : number) :
  Dark.bmi st = Some v ->
  Dark.bmiColor st = band_index (Dark.label (Dark.getBmiCategory v)).
Proof.
  intros H. unfold Dark.bmiColor, Dark.getBmiCategory, lt. rewrite H.
  destruct (v =? 0) eqn:E0.
  - rewrite (zero_is_underweight v E0). reflexivity.
  - destruct (v <? 18.5); [reflexivity|].
    destruct (v <? 25); [reflexivity|].
    destruct (v <? 30); reflexivity.
Qed.

(** C7 (amended). On every accepted evaluation the light screen starts exactly
    three animations: the reveal of the result card, the fill of the scale to
    the result's scale position, and the pop of the indicator (a spring to 1,
    then a timing back to 0); fill and pop are started separately, so the fill
    and the pop's first step run from the same moment; the accent is the
    category's.  The dark screen starts exactly two, the reveal and the fill,
    coloured by the palette entry of the category's band: it has no pop. *)
Theorem accepted_intents :
  (forall (st : Light.state) v c p,
      Light.evaluate (Light.heightValue st) (Light.weightValue st) = Accepted v c p ->
      let r := Light.onCalculate st in
      Light.started (snd r)
      = [Light.timing Light.reveal 1 220 true;
         Light.timing Light.progress p 480 false;
         Light.sequence [Light.spring Light.indicatorPop 1 18 10 true;
                         Light.timing Light.indicatorPop 0 220 true]]
      /\ flat_map Light.first_steps (Light.started (snd r))
         = [Light.timing Light.reveal 1 220 true;
            Light.timing Light.progress p 480 false;
            Light.spring Light.indicatorPop 1 18 10 true]
      /\ Light.targets Light.indicatorPop (snd r) = [1; 0]
      /\ Light.accentHexOf (fst r) = Light.accentHex c)
  /\ (forall (st : Dark.state) v c p,
      Dark.evaluate (Dark.heightValue st) (Dark.weightValue st) = Accepted v c p ->
      let r := Dark.onCalculate st in
      Dark.started (snd r)
      = [(Dark.reveal, Dark.withSpring 1 14 140);
         (Dark.progress, Dark.withTiming p 500 (Some (Dark.Easing_out Dark.cubic)))]
      /\ Dark.bmiColor (fst r) = band_index (Dark.label c)).
Proof.
  split.
  - intros st v c p H r. subst r. revert H.
    unfold Light.evaluate, Light.onCalculate.
    destruct (Light.valid _ _); cbn [negb]; [|discriminate].
    intros H. injection H as <- <- <-.
    repeat apply conj; reflexivity.
  - intros st v c p H r. subst r. revert H.
    unfold Dark.evaluate, Dark.onCalculate.
    destruct (Dark.valid _ _); cbn [negb]; [|discriminate].
    intros H. injection H as <- <- <-.
    split; [reflexivity|].
    apply bmiColor_band. reflexivity.
Qed.

Lemma accepted_intents_witness :
  List.length (Light.started (snd (Light.onCalculate (light_state "172" "68")))) = 3%nat
  /\ List.length (Dark.started (snd (Dark.onCalculate (dark_state "172" "68")))) = 2%nat.
Proof.
  assert (HL : Light.evaluate (Light.heightValue (light_state "172" "68"))
                 (Light.weightValue (light_state "172" "68"))
               = Accepted 0x1.6fc4302e85313p+4 (Light.getBmiCategory 0x1.6fc4302e85313p+4)
                   0x1.bb3c22856068fp-2)
    by (vm_compute; reflexivity).
  assert (HD : Dark.evaluate (Dark.heightValue (dark_state "172" "68"))
                 (Dark.weightValue (dark_state "172" "68"))
               = Accepted 0x1.6fc4302e85313p+4 (Dark.getBmiCategory 0x1.6fc4302e85313p+4)
                   0x1.bb3c22856068fp-2)
    by (vm_compute; reflexivity).
  split.
  - rewrite (proj1 (proj1 accepted_intents _ _ _ _ HL)). reflexivity.
  - rewrite (proj1 (proj2 accepted_intents _ _ _ _ HD)). reflexivity.
Defined.

(** C7, as stated, fails on the dark screen: 172 cm and 68 kg are accepted
    and two animations are started, not three. *)
Lemma dark_accepts_without_pop :
  ~ (forall (st : Dark.state) v c p,
        Dark.evaluate (Dark.heightValue st) (Dark.weightValue st) = Accepted v c p ->
        List.length (Dark.started (snd (Dark.onCalculate st))) = 3%nat).
Proof.
  intros H.
  assert (HD : Dark.evaluate (Dark.heightValue (dark_state "172" "68"))
                 (Dark.weightValue (dark_state "172" "68"))
               = Accepted 0x1.6fc4302e85313p+4 (Dark.getBmiCategory 0x1.6fc4302e85313p+4)
                   0x1.bb3c22856068fp-2)
    by (vm_compute; reflexivity).
  specialize (H _ _ _ _ HD).
  vm_compute in H. discriminate H.
Qed.

End Feedback.

(* ===================================================================== *)
(** * The size of the accepted value, and its text                      *)
(* ===================================================================== *)

(** An accepted height and weight are normal numbers with exponents in a
    narrow band; so are the quotients and the product of the formula, by the
    bounds rounding to nearest keeps. *)

Section Magnitude.
Import JS.
Local Open Scope Z_scope.

Lemma binary_round_aux_normal (s : bool) (p : positive) (e : Z) (l : location) :
  53 <= Zpos (digits2_pos p) ->
  -1074 <= Zpos (digits2_pos p) + e - 53 ->
  Zpos (digits2_pos p) + e - 52 <= 971 ->
  exists m' e',
    binary_round_aux prec emax s (Zpos p) e l = S754_finite s m' e'
    /\ 2 ^ 52 <= Zpos m' < 2 ^ 53
    /\ Zpos (digits2_pos p) + e - 53 <= e' <= Zpos (digits2_pos p) + e - 52
    /\ Zpos p - 2 ^ (e' - e) < Zpos m' * 2 ^ (e' - e) <= Zpos p + 2 ^ (e' - e).
Proof.
  pose proof (digits2_bounds p) as [Dl Du].
  set (d := Zpos (digits2_pos p)) in *.
  intros Hd Hlo Hhi.
  unfold binary_round_aux.
  pose proof (shr_fexp_spec (Zpos p) e l ltac:(lia)) as [H1 H1e].
  cbn zeta in H1, H1e. cbn [Zdigits2] in H1, H1e. fold d in H1, H1e.
  rewrite fexp_eq in H1, H1e.
  replace (Z.max (Z.max (d + e - 53) (-1074) - e) 0) with (d - 53) in H1, H1e by lia.
  destruct (shr_fexp prec emax (Zpos p) e l) as [mrs' e1].
  cbn [fst snd] in H1, H1e. subst e1.
  set (m1 := shr_m mrs') in *.
  assert (Hpow : 2 ^ d = 2 ^ 53 * 2 ^ (d - 53)).
  { rewrite <- pow2_split by lia. f_equal. lia. }
  assert (Hpow' : 2 ^ (d - 1) = 2 ^ 52 * 2 ^ (d - 53)).
  { rewrite <- pow2_split by lia. f_equal. lia. }
  assert (Hp2 : 0 < 2 ^ (d - 53)) by (apply Z.pow_pos_nonneg; lia).
  assert (Hm1 : 2 ^ 52 <= m1 < 2 ^ 53).
  { rewrite H1. split.
    - apply Z.div_le_lower_bound; [exact Hp2|]. rewrite Z.mul_comm. lia.
    - apply Z.div_lt_upper_bound; [exact Hp2|]. rewrite Z.mul_comm. lia. }
  assert (Hfl : m1 * 2 ^ (d - 53) <= Zpos p < (m1 + 1) * 2 ^ (d - 53)).
  { rewrite H1. pose proof (Z.div_mod (Zpos p) (2 ^ (d - 53)) ltac:(lia)) as E.
    pose proof (Z.mod_pos_bound (Zpos p) (2 ^ (d - 53)) Hp2) as B.
    set (qq := Zpos p / 2 ^ (d - 53)) in *. set (rr := Zpos p mod 2 ^ (d - 53)) in *.
    clearbody qq rr. clear - E B. nia. }
  pose proof (round_nearest_even_bounds m1 (loc_of_shr_record mrs')) as Hr.
  set (m2 := round_nearest_even m1 (loc_of_shr_record mrs')) in *.
  destruct m2 as [|p2|p2] eqn:Em2; [lia | | lia].
  pose proof (shr_fexp_spec (Zpos p2) (e + (d - 53)) loc_Exact ltac:(lia)) as [H2 H2e].
  cbn zeta in H2, H2e. cbn [Zdigits2] in H2, H2e.
  rewrite fexp_eq in H2, H2e. change (emax - prec) with 971.
  destruct (shr_fexp prec emax (Zpos p2) (e + (d - 53)) loc_Exact) as [mrs'' e''].
  cbn [fst snd] in H2, H2e.
  destruct (Z_lt_le_dec (Zpos p2) (2 ^ 53)) as [Hlt|Hge].
  - assert (Hd2 : Zpos (digits2_pos p2) = 53) by (apply digits2_unique; lia).
    rewrite Hd2 in H2, H2e.
    replace (Z.max (Z.max (53 + (e + (d - 53)) - 53) (-1074) - (e + (d - 53))) 0)
      with 0 in H2, H2e by lia.
    rewrite Z.pow_0_r, Z.div_1_r in H2. rewrite H2.
    assert (Ele : (e'' <=? 971) = true) by (apply Z.leb_le; lia).
    rewrite Ele.
    exists p2, e''. split; [reflexivity|]. split; [lia|]. split; [lia|].
    replace (e'' - e) with (d - 53) by lia.
    clear - Hfl Hr Hp2. nia.
  - assert (Ep2 : Zpos p2 = 2 ^ 53) by lia.
    assert (Hd2 : Zpos (digits2_pos p2) = 54).
    { apply digits2_unique. rewrite Ep2. split; [lia|]. apply Z.pow_lt_mono_r; lia. }
    rewrite Hd2 in H2, H2e.
    replace (Z.max (Z.max (54 + (e + (d - 53)) - 53) (-1074) - (e + (d - 53))) 0)
      with 1 in H2, H2e by lia.
    rewrite Ep2 in H2. change (2 ^ 53 / 2 ^ 1) with (2 ^ 52) in H2. rewrite H2.
    change (2 ^ 52) with (Zpos 4503599627370496).
    cbv iota.
    assert (Ele : (e'' <=? 971) = true) by (apply Z.leb_le; lia).
    rewrite Ele.
    exists 4503599627370496%positive, e''. split; [reflexivity|].
    split; [split; [apply Z.le_refl | reflexivity]|]. split; [lia|].
    replace (e'' - e) with (d - 53 + 1) by lia.
    rewrite pow2_split by lia. change (2 ^ 1) with 2.
    change (Zpos 4503599627370496) with (2 ^ 52).
    assert (E53 : m1 + 1 = 2 ^ 53) by lia.
    assert (Hx : 2 ^ 52 * (2 ^ (d - 53) * 2) = (m1 + 1) * 2 ^ (d - 53)).
    { rewrite E53. change (2 ^ 53) with (2 ^ 52 * 2). ring. }
    rewrite Hx. clear - Hfl Hp2. nia.
Qed.


Lemma SFmul_normal (lx hx ly hy : Z) (x y : spec_float) :
  normal_within lx hx x -> normal_within ly hy y ->
  -1074 <= lx + ly + 52 -> hx + hy + 54 <= 971 ->
  normal_within (lx + ly + 52) (hx + hy + 54) (SFmul prec emax x y).
Proof.
  intros (mx & ex & -> & Hmx & Hex) (my & ey & -> & Hmy & Hey) Hlo Hhi.
  cbn [SFmul xorb].
  assert (Hprod : 2 ^ 104 <= Zpos (mx * my) < 2 ^ 106).
  { rewrite Pos2Z.inj_mul.
    change (2 ^ 104) with (2 ^ 52 * 2 ^ 52). change (2 ^ 106) with (2 ^ 53 * 2 ^ 53).
    clear - Hmx Hmy. nia. }
  assert (Hd : Zpos (digits2_pos (mx * my)) = 105 \/ Zpos (digits2_pos (mx * my)) = 106).
  { destruct (Z_lt_le_dec (Zpos (mx * my)) (2 ^ 105)) as [H|H].
    - left. apply digits2_unique. change (105 - 1) with 104. lia.
    - right. apply digits2_unique. change (106 - 1) with 105. lia. }
  destruct (binary_round_aux_normal false (mx * my) (ex + ey) loc_Exact)
    as (m' & e' & E & Hm' & He' & _); try lia.
  rewrite E. exists m', e'. split; [reflexivity|]. split; [exact Hm'|]. lia.
Qed.

(** The quotient of two normal numbers: its exponent, and how far its
    mantissa can be from the exact quotient. *)
Lemma SFdiv_normal_error (mx my : positive) (ex ey : Z) :
  2 ^ 52 <= Zpos mx < 2 ^ 53 -> 2 ^ 52 <= Zpos my < 2 ^ 53 ->
  -1074 <= ex - ey - 53 -> ex - ey - 51 <= 971 ->
  exists m' e',
    SFdiv prec emax (S754_finite false mx ex) (S754_finite false my ey)
    = S754_finite false m' e'
    /\ 2 ^ 52 <= Zpos m' < 2 ^ 53
    /\ ex - ey - 53 <= e' <= ex - ey - 51
    /\ Zpos mx * 2 ^ 53 - 2 * (Zpos my * 2 ^ (e' - (ex - ey - 53)))
       < Zpos m' * Zpos my * 2 ^ (e' - (ex - ey - 53))
       <= Zpos mx * 2 ^ 53 + Zpos my * 2 ^ (e' - (ex - ey - 53)).
Proof.
  intros Hmx Hmy Hlo Hhi.
  cbn [SFdiv xorb]. rewrite SFdiv_core_quotient. cbn zeta. cbn [Zdigits2].
  assert (Hdx : Zpos (digits2_pos mx) = 53) by (apply digits2_unique; lia).
  assert (Hdy : Zpos (digits2_pos my) = 53) by (apply digits2_unique; lia).
  rewrite Hdx, Hdy, fexp_eq.
  replace (Z.min (Z.max (53 + ex - (53 + ey) - 53) (-1074)) (ex - ey))
    with (ex - ey - 53) by lia.
  replace (ex - ey - (ex - ey - 53)) with 53 by lia.
  set (q := Zpos mx * 2 ^ 53 / Zpos my).
  assert (Hq : q * Zpos my <= Zpos mx * 2 ^ 53 < (q + 1) * Zpos my).
  { pose proof (Z.div_mod (Zpos mx * 2 ^ 53) (Zpos my) ltac:(lia)) as E.
    pose proof (Z.mod_pos_bound (Zpos mx * 2 ^ 53) (Zpos my) ltac:(lia)) as B.
    fold q in E. set (rr := (Zpos mx * 2 ^ 53) mod Zpos my) in *.
    clearbody q rr. clear - E B. nia. }
  assert (Hqr : 2 ^ 52 <= q < 2 ^ 54).
  { split.
    - unfold q. apply Z.div_le_lower_bound; [lia|].
      change (2 ^ 53) with 9007199254740992 in *.
      change (2 ^ 52) with 4503599627370496 in *. clear - Hmx Hmy. nia.
    - unfold q. apply Z.div_lt_upper_bound; [lia|].
      change (2 ^ 54) with 18014398509481984.
      change (2 ^ 53) with 9007199254740992 in *.
      change (2 ^ 52) with 4503599627370496 in *. clear - Hmx Hmy. nia. }
  destruct q as [|pq|pq] eqn:Eq; [lia | | lia].
  assert (Hd : Zpos (digits2_pos pq) = 53 \/ Zpos (digits2_pos pq) = 54).
  { destruct (Z_lt_le_dec (Zpos pq) (2 ^ 53)) as [H|H].
    - left. apply digits2_unique. change (53 - 1) with 52. lia.
    - right. apply digits2_unique. change (54 - 1) with 53. lia. }
  destruct (binary_round_aux_normal false pq (ex - ey - 53)
              (new_location (Zpos my) ((Zpos mx * 2 ^ 53) mod Zpos my)))
    as (m' & e' & E & Hm' & He' & Herr); try lia.
  rewrite E. exists m', e'. split; [reflexivity|]. split; [exact Hm'|]. split; [lia|].
  set (P := 2 ^ (e' - (ex - ey - 53))) in *.
  assert (HP : 1 <= P).
  { unfold P. change 1 with (2 ^ 0). apply Z.pow_le_mono_r; lia. }
  set (A := Zpos mx * 2 ^ 53) in *. clearbody A P.
  clear - Hq Herr HP. nia.
Qed.

Lemma SFdiv_normal (lx hx ly hy : Z) (x y : spec_float) :
  normal_within lx hx x -> normal_within ly hy y ->
  -1074 <= lx - hy - 53 -> hx - ly - 51 <= 971 ->
  normal_within (lx - hy - 53) (hx - ly - 51) (SFdiv prec emax x y).
Proof.
  intros (mx & ex & -> & Hmx & Hex) (my & ey & -> & Hmy & Hey) Hlo Hhi.
  destruct (SFdiv_normal_error mx my ex ey Hmx Hmy) as (m' & e' & E & Hm' & He' & _);
    try lia.
  rewrite E. exists m', e'. split; [reflexivity|]. split; [exact Hm'|]. lia.
Qed.

(** A valid number strictly between two positive finite ones is normal, with
    its exponent between theirs. *)
Lemma between_normal (x : spec_float) (ml mh : positive) (el eh : Z) :
  valid_binary x = true -> -1074 < el ->
  SFltb (S754_finite false ml el) x = true ->
  SFltb x (S754_finite false mh eh) = true ->
  normal_within el eh x.
Proof.
  intros Hv Hel. destruct x as [s|s| |s m e]; unfold SFltb; cbn [SFcompare]; try discriminate.
  - destruct s; discriminate.
  - destruct s; [discriminate|]. cbn [valid_binary] in Hv.
    intros H1 H2.
    assert (He : el <= e <= eh).
    { destruct (Z.compare_spec el e), (Z.compare_spec e eh);
        try discriminate H1; try discriminate H2; lia. }
    exists m, e. split; [reflexivity|]. split; [|exact He].
    split; [apply (bounded_normal m e Hv); lia | exact (bounded_lt m e Hv)].
Qed.

Local Open Scope float_scope.

Lemma normal_within_weaken (lo hi lo' hi' : Z) (r : spec_float) :
  normal_within lo hi r -> (lo' <= lo)%Z -> (hi <= hi')%Z -> normal_within lo' hi' r.
Proof.
  intros (m & e & -> & Hm & He) H1 H2. exists m, e. split; [reflexivity|]. split; [exact Hm|]. lia.
Qed.

(** The accepted value is a normal number between [2 ^ -6] and [2 ^ 14]. *)
Lemma nextBmi_normal (h w : float) :
  Dark.valid (Some h) (Some w) = true ->
  normal_within (-58) (-39) (Prim2SF (Dark.nextBmi (Some h) (Some w))).
Proof.
  unfold Dark.valid, Dark.nextBmi, gt, lt, ToNumber, notNull. cbn [andb].
  rewrite !andb_true_iff, !ltb_spec. intros [[[H1 H2] H3] H4].
  change (Prim2SF 40) with (S754_finite false 5629499534213120 (-47)) in H1.
  change (Prim2SF 260) with (S754_finite false 4573968371548160 (-44)) in H2.
  change (Prim2SF 10) with (S754_finite false 5629499534213120 (-49)) in H3.
  change (Prim2SF 400) with (S754_finite false 7036874417766400 (-44)) in H4.
  assert (Hh : normal_within (-47) (-44) (Prim2SF h))
    by (apply (between_normal _ _ _ _ _ (Prim2SF_valid h)) with (3 := H2) (2 := H1); lia).
  assert (Hw : normal_within (-49) (-44) (Prim2SF w))
    by (apply (between_normal _ _ _ _ _ (Prim2SF_valid w)) with (3 := H4) (2 := H3); lia).
  rewrite div_spec, mul_spec, div_spec. unfold SF64div, SF64mul.
  assert (H100 : normal_within (-46) (-46) (Prim2SF 100)).
  { exists 7036874417766400%positive, (-46)%Z. split; [reflexivity|].
    change (2 ^ 52)%Z with 4503599627370496%Z. change (2 ^ 53)%Z with 9007199254740992%Z. lia. }
  assert (HM : normal_within (-54) (-49) (SFdiv prec emax (Prim2SF h) (Prim2SF 100))).
  { apply (normal_within_weaken (-47 - -46 - 53) (-44 - -46 - 51)); [|lia|lia].
    apply SFdiv_normal; [exact Hh | exact H100 | lia | lia]. }
  set (hM := SFdiv prec emax (Prim2SF h) (Prim2SF 100)) in *.
  assert (HMM : normal_within (-56) (-44) (SFmul prec emax hM hM)).
  { apply (normal_within_weaken (-54 + -54 + 52) (-49 + -49 + 54)); [|lia|lia].
    apply SFmul_normal; [exact HM | exact HM | lia | lia]. }
  apply (normal_within_weaken (-49 - -44 - 53) (-44 - -56 - 51)); [|lia|lia].
  apply SFdiv_normal; [exact Hw | exact HMM | lia | lia].
Qed.


Local Open Scope Z_scope.

Lemma normal_within_valid (lo hi : Z) (r : spec_float) :
  normal_within lo hi r -> -1074 <= lo -> hi <= 971 -> valid_binary r = true.
Proof.
  intros (m & e & -> & Hm & He) Hlo Hhi. cbn [SpecFloat.valid_binary].
  unfold bounded, canonical_mantissa.
  assert (Hd : Zpos (digits2_pos m) = 53) by (apply digits2_unique; lia).
  rewrite Hd, fexp_eq. change (emax - prec) with 971.
  apply andb_true_iff. split; [apply Z.eqb_eq | apply Z.leb_le]; lia.
Qed.




(** ** [round1] of a number that size *)

Lemma binary_round_aux_exact (s : bool) (p : positive) (e : Z) :
  Zpos (digits2_pos p) = 53 -> -1074 <= e <= 971 ->
  binary_round_aux prec emax s (Zpos p) e loc_Exact = S754_finite s p e.
Proof.
  intros Hd He. unfold binary_round_aux, shr_fexp.
  cbn [Zdigits2 shr_record_of_loc]. rewrite Hd, fexp_eq.
  replace (Z.max (53 + e - 53) (-1074) - e) with 0 by lia.
  cbn [shr shr_m loc_of_shr_record round_nearest_even Zdigits2 shr_record_of_loc].
  rewrite Hd, fexp_eq.
  replace (Z.max (53 + e - 53) (-1074) - e) with 0 by lia.
  cbn [shr shr_m]. change (emax - prec) with 971.
  replace (e <=? 971) with true by (symmetry; apply Z.leb_le; lia).
  reflexivity.
Qed.

(** An integer of at most 53 bits is a number: its mantissa is the integer,
    shifted to 53 bits. *)
Lemma round_integer_exact (r : positive) :
  Zpos (digits2_pos r) <= 53 ->
  exists mk,
    round_integer (Zpos r) = S754_finite false mk (Zpos (digits2_pos r) - 53)
    /\ Zpos mk = Zpos r * 2 ^ (53 - Zpos (digits2_pos r))
    /\ 2 ^ 52 <= Zpos mk < 2 ^ 53.
Proof.
  intros Hd. unfold round_integer. cbn [binary_normalize]. unfold binary_round.
  pose proof (shl_align_spec r 0 (fexp prec emax (Zpos (digits2_pos r) + 0))) as [Hz He].
  cbn zeta in Hz, He.
  destruct (shl_align r 0 (fexp prec emax (Zpos (digits2_pos r) + 0))) as [mz ez].
  cbn [fst snd] in Hz, He. rewrite fexp_eq in Hz, He.
  pose proof (digits2_bounds r) as [Dl Du].
  set (d := Zpos (digits2_pos r)) in *.
  assert (Hd0 : 0 < d) by (unfold d; lia).
  replace (Z.max (0 - Z.max (d + 0 - 53) (-1074)) 0) with (53 - d) in Hz, He by lia.
  assert (Hn : 2 ^ 52 <= Zpos mz < 2 ^ 53).
  { assert (E52 : 2 ^ 52 = 2 ^ (d - 1) * 2 ^ (53 - d))
      by (rewrite <- pow2_split by lia; f_equal; lia).
    assert (E53 : 2 ^ 53 = 2 ^ d * 2 ^ (53 - d))
      by (rewrite <- pow2_split by lia; f_equal; lia).
    rewrite Hz, E52, E53.
    assert (0 < 2 ^ (53 - d)) by (apply Z.pow_pos_nonneg; lia).
    split; [apply Z.mul_le_mono_nonneg_r; lia | apply Z.mul_lt_mono_pos_r; lia]. }
  exists mz. split; [|split; [exact Hz | exact Hn]].
  subst ez. replace (0 - (53 - d)) with (d - 53) by lia.
  apply binary_round_aux_exact; [apply digits2_unique; lia | lia].
Qed.

Lemma round_integer_valid (k : Z) :
  0 <= k < 2 ^ 53 -> valid_binary (round_integer k) = true.
Proof.
  intros Hk. destruct k as [|r|r]; [reflexivity | | lia].
  assert (Hd : Zpos (digits2_pos r) <= 53).
  { pose proof (digits2_bounds r) as [Dl _].
    assert (Zpos (digits2_pos r) - 1 < 53) by (apply (Z.pow_lt_mono_r_iff 2); lia).
    lia. }
  destruct (round_integer_exact r Hd) as (mk & -> & _ & Hn).
  apply (normal_within_valid (Zpos (digits2_pos r) - 53) (Zpos (digits2_pos r) - 53)).
  - exists mk, (Zpos (digits2_pos r) - 53). split; [reflexivity|]. split; [exact Hn | lia].
  - lia.
  - lia.
Qed.

Local Open Scope float_scope.

(** [Math.round] of a positive normal number below [2 ^ 19]: the number of
    an integer below [2 ^ 20]. *)
Lemma Math_round_normal (t : float) :
  normal_within (-55) (-34) (Prim2SF t) ->
  exists k : Z, (0 <= k < 2 ^ 20)%Z /\ Math_round t = SF2Prim (round_integer k).
Proof.
  intros (m & e & E & Hm & He). unfold Math_round. rewrite E.
  replace (0 <=? e)%Z with false by (symmetry; apply Z.leb_gt; lia).
  cbn [cond_Zopp].
  set (r := ((2 * Zpos m + 2 ^ (- e)) / 2 ^ (1 - e))%Z).
  assert (Hp : (2 ^ 34 <= 2 ^ (- e))%Z) by (apply Z.pow_le_mono_r; lia).
  assert (Hp1 : (2 ^ (1 - e) = 2 * 2 ^ (- e))%Z).
  { replace (1 - e)%Z with (Z.succ (- e)) by lia. apply Z.pow_succ_r. lia. }
  assert (Hr : (0 <= r < 2 ^ 20)%Z).
  { unfold r. rewrite Hp1. split.
    - apply Z.div_pos; lia.
    - apply Z.div_lt_upper_bound; [lia|].
      change (2 ^ 20)%Z with 1048576%Z. change (2 ^ 34)%Z with 17179869184%Z in Hp.
      change (2 ^ 53)%Z with 9007199254740992%Z in Hm.
      set (P := (2 ^ (- e))%Z) in *. clearbody P. clear - Hm Hp. lia. }
  exists r. split; [exact Hr|].
  destruct (Z.eqb_spec r 0) as [->|_]; reflexivity.
Qed.

(** The digits of [x.toFixed(1)] for the quotient [x] of an integer by 10:
    those of the integer. *)
Lemma toFixed_tenths (k : Z) :
  (0 <= k < 2 ^ 20)%Z ->
  toFixed (SF2Prim (round_integer k) / 10) 1 = fixed_digits k 1.
Proof.
  intros Hk. unfold toFixed. rewrite div_spec. unfold SF64div.
  rewrite Prim2SF_SF2Prim by (apply round_integer_valid; lia).
  change (Prim2SF 10) with (S754_finite false 5629499534213120 (-49)).
  destruct k as [|r|r]; [reflexivity | | lia].
  pose proof (digits2_bounds r) as [Dl Du].
  assert (Hd : (0 < Zpos (digits2_pos r) <= 20)%Z).
  { split; [lia|].
    assert (Zpos (digits2_pos r) - 1 < 20)%Z by (apply (Z.pow_lt_mono_r_iff 2); lia).
    lia. }
  destruct (round_integer_exact r ltac:(lia)) as (mk & -> & Hmk & Hn).
  set (d := Zpos (digits2_pos r)) in *.
  destruct (SFdiv_normal_error mk 5629499534213120 (d - 53) (-49) Hn)
    as (m' & e' & -> & Hm' & He' & Herr).
  { change (2 ^ 52)%Z with 4503599627370496%Z. change (2 ^ 53)%Z with 9007199254740992%Z. lia. }
  { lia. }
  { lia. }
  cbn [app].
  assert (HE : (34 <= - e' - 1)%Z) by lia.
  assert (HP : (2 ^ 34 <= 2 ^ (- e' - 1))%Z) by (apply Z.pow_le_mono_r; lia).
  set (P := (2 ^ (- e' - 1))%Z) in *.
  assert (HE0 : (2 ^ (- e') = 2 * P)%Z).
  { unfold P. replace (- e')%Z with (Z.succ (- e' - 1)) at 1 by lia. apply Z.pow_succ_r. lia. }
  assert (HE1 : (2 ^ (1 - e') = 2 * (2 * P))%Z).
  { replace (1 - e')%Z with (Z.succ (- e')) by lia. rewrite Z.pow_succ_r by lia.
    rewrite HE0. reflexivity. }
  (* the error bound, in units of the last place *)
  set (D := (e' - (d - 53 - -49 - 53))%Z) in *.
  assert (HD : (0 <= D)%Z) by (unfold D; lia).
  assert (HQ : (0 < 2 ^ (50 + D))%Z) by (apply Z.pow_pos_nonneg; lia).
  assert (H10 : (5629499534213120 * 2 ^ D = 5 * 2 ^ (50 + D))%Z).
  { rewrite pow2_split by lia. change (2 ^ 50)%Z with 1125899906842624%Z. ring. }
  assert (Hk2 : (Zpos mk * 2 ^ 53 = Zpos r * P * 2 ^ (50 + D))%Z).
  { rewrite Hmk. unfold P. rewrite <- !Z.mul_assoc. f_equal.
    rewrite <- !pow2_split by lia. f_equal. unfold D. lia. }
  assert (Hb : (Zpos r * P - 10 < 5 * Zpos m' <= Zpos r * P + 5)%Z).
  { rewrite <- !Z.mul_assoc in Herr. rewrite H10, Hk2 in Herr.
    set (Q := (2 ^ (50 + D))%Z) in *. clearbody Q P. clear - Herr HQ. nia. }
  (* below 10 ^ 21 *)
  replace (10 ^ 21 <=? Z.shiftl (Zpos m') e')%Z with false.
  2:{ symmetry. apply Z.leb_gt. rewrite Z.shiftl_div_pow2 by lia.
      apply Z.div_lt_upper_bound; [lia|]. rewrite HE0.
      change (2 ^ 53)%Z with 9007199254740992%Z in Hm'.
      change (2 ^ 34)%Z with 17179869184%Z in HP.
      change (10 ^ 21)%Z with 1000000000000000000000%Z.
      clearbody P. clear - Hm' HP. nia. }
  f_equal. unfold nearest_scaled. change (10 ^ Z.of_N 1)%Z with 10%Z.
  replace (0 <=? e')%Z with false by (symmetry; apply Z.leb_gt; lia).
  rewrite HE0, HE1. symmetry.
  apply Z.div_unique with (r := (2 * (Zpos m' * 10) + 2 * P - 2 * (2 * P) * Zpos r)%Z).
  - left. change (2 ^ 34)%Z with 17179869184%Z in HP. clearbody P. clear - Hb HP. lia.
  - ring.
Qed.

Lemma round1_normal (v : float) :
  normal_within (-58) (-39) (Prim2SF v) ->
  exists k : Z,
    (0 <= k < 2 ^ 20)%Z
    /\ Math_round (v * 10) = SF2Prim (round_integer k)
    /\ Dark.round1 v = fixed_digits k 1.
Proof.
  intros Hv.
  assert (Ht : normal_within (-55) (-34) (Prim2SF (v * 10))).
  { rewrite mul_spec. unfold SF64mul.
    apply (normal_within_weaken (-58 + -49 + 52) (-39 + -49 + 54)); [|lia|lia].
    apply SFmul_normal; [exact Hv | | lia | lia].
    exists 5629499534213120%positive, (-49)%Z. split; [reflexivity|].
    change (2 ^ 52)%Z with 4503599627370496%Z. change (2 ^ 53)%Z with 9007199254740992%Z. lia. }
  destruct (Math_round_normal _ Ht) as (k & Hk & E).
  exists k. split; [exact Hk|]. split; [exact E|].
  unfold Dark.round1. rewrite E. apply toFixed_tenths. exact Hk.
Qed.

(** ** The text of [fixed_digits] with one fraction digit *)

Lemma digits_of_uint_decimal (u : Decimal.uint) :
  forallb isDecimalDigit (digits_of_uint u) = true.
Proof. induction u; cbn [digits_of_uint forallb]; try rewrite IHu; reflexivity. Qed.

Lemma fixed_digits_one (n : Z) :
  exists (ip : jsstring) (d : code_unit),
    fixed_digits n 1 = ip ++ [period; d]
    /\ ip <> []
    /\ forallb isDecimalDigit (ip ++ [d]) = true.
Proof.
  unfold fixed_digits. change (1 =? 0)%N with false. change (N.to_nat 1) with 1%nat.
  cbv zeta.
  set (m := repeat 48%N (1 + 1 - List.length (decimal n)) ++ decimal n).
  assert (Hlen : (2 <= List.length m)%nat).
  { unfold m. rewrite length_app, repeat_length.
    change (@List.length code_unit) with (@List.length N). lia. }
  assert (Hdig : forallb isDecimalDigit m = true).
  { unfold m. rewrite forallb_app. apply andb_true_iff. split.
    - apply forallb_forall. intros x Hx. apply repeat_spec in Hx. subst x. reflexivity.
    - apply digits_of_uint_decimal. }
  destruct (exists_last (l := m)) as (ip & d & E).
  { intros E. rewrite E in Hlen. cbn in Hlen. lia. }
  clearbody m. subst m. rewrite length_app in Hlen |- *. cbn [List.length] in Hlen |- *.
  replace (List.length ip + 1 - 1)%nat with (List.length ip + 0)%nat by lia.
  rewrite firstn_app_2, skipn_app. cbn [firstn].
  rewrite skipn_all2 by lia.
  replace (List.length ip + 0 - List.length ip)%nat with 0%nat by lia.
  cbn [skipn app]. rewrite app_nil_r.
  exists ip, d. split; [reflexivity|]. split; [|exact Hdig].
  destruct ip; [cbn in Hlen; lia | discriminate].
Qed.


Lemma stored_normal (h w : option number) :
  Dark.valid h w = true -> normal_within (-58) (-39) (Prim2SF (Dark.nextBmi h w)).
Proof.
  intros Hv. destruct h as [h|]; [|discriminate Hv].
  destruct w as [w|]; [|unfold Dark.valid in Hv; cbn [notNull andb] in Hv; discriminate Hv].
  exact (nextBmi_normal h w Hv).
Qed.

Lemma Dark_stored_normal (st : Dark.state) (v : number) :
  Dark.bmi (fst (Dark.onCalculate st)) = Some v -> normal_within (-58) (-39) (Prim2SF v).
Proof.
  rewrite Dark_onCalculate_bmi.
  destruct (Dark.valid _ _) eqn:Hv; [|discriminate].
  intros H. injection H as <-. exact (stored_normal _ _ Hv).
Qed.

Lemma Light_stored_normal (st : Light.state) (v : number) :
  Light.bmi (fst (Light.onCalculate st)) = Some v -> normal_within (-58) (-39) (Prim2SF v).
Proof.
  rewrite Light_onCalculate_bmi.
  destruct (Dark.valid _ _) eqn:Hv; [|discriminate].
  intros H. injection H as <-. exact (stored_normal _ _ Hv).
Qed.




Lemma round1_text (v : number) :
  normal_within (-58) (-39) (Prim2SF v) ->
  exists (k : Z) (ip : jsstring) (d : code_unit),
    (0 <= k < 2 ^ 20)%Z
    /\ Math_round (v * 10) = SF2Prim (round_integer k)
    /\ Dark.round1 v = fixed_digits k 1
    /\ fixed_digits k 1 = ip ++ [period; d]
    /\ ip <> []
    /\ forallb isDecimalDigit (ip ++ [d]) = true.
Proof.
  intros H. destruct (round1_normal v H) as (k & Hk & Hr & Ht).
  destruct (fixed_digits_one k) as (ip & d & E & Hip & Hd).
  exists k, ip, d. auto 10.
Qed.

(** X2. The text of the result card after an accepted calculation is plain
    decimal, on both screens: [Math.round(bmi * 10)] is the number of an
    integer [k] below 2 ^ 20, and [round1] shows the digits of [k] with the
    point before the last one (dividing by 10 and [toFixed(1)] give back
    [k]'s digits); so the text is one digit or more, a point and one digit,
    never [NaN], [Infinity], a sign or an exponent. *)
Theorem result_text_is_the_rounded_tenths :
  (forall (st : Dark.state) (v : number),
      Dark.bmi (fst (Dark.onCalculate st)) = Some v ->
      exists (k : Z) (ip : jsstring) (d : code_unit),
        (0 <= k < 2 ^ 20)%Z
        /\ Math_round (v * 10) = SF2Prim (round_integer k)
        /\ Dark.bmiText (fst (Dark.onCalculate st)) = fixed_digits k 1
        /\ fixed_digits k 1 = ip ++ [period; d]
        /\ ip <> []
        /\ forallb isDecimalDigit (ip ++ [d]) = true)
  /\ (forall (st : Light.state) (v : number),
      Light.bmi (fst (Light.onCalculate st)) = Some v ->
      exists (k : Z) (ip : jsstring) (d : code_unit),
        (0 <= k < 2 ^ 20)%Z
        /\ Math_round (v * 10) = SF2Prim (round_integer k)
        /\ Light.bmiText (fst (Light.onCalculate st)) = fixed_digits k 1
        /\ fixed_digits k 1 = ip ++ [period; d]
        /\ ip <> []
        /\ forallb isDecimalDigit (ip ++ [d]) = true).
Proof.
  split; intros st v H.
  - unfold Dark.bmiText. rewrite H. exact (round1_text v (Dark_stored_normal st v H)).
  - unfold Light.bmiText. rewrite H. change Light.round1 with Dark.round1.
    exact (round1_text v (Light_stored_normal st v H)).
Qed.

Lemma result_text_witness :
  exists (k : Z) (ip : jsstring) (d : code_unit),
    (0 <= k < 2 ^ 20)%Z
    /\ Math_round (0x1.6fc4302e85313p+4 * 10) = SF2Prim (round_integer k)
    /\ Dark.bmiText (fst (Dark.onCalculate (dark_state "172" "68"))) = fixed_digits k 1
    /\ fixed_digits k 1 = ip ++ [period; d]
    /\ ip <> []
    /\ forallb isDecimalDigit (ip ++ [d]) = true.
Proof.
  apply (proj1 result_text_is_the_rounded_tenths (dark_state "172" "68")).
  vm_compute. reflexivity.
Defined.

End Magnitude.

(* ===================================================================== *)
(** * Classification is monotone                                        *)
(* ===================================================================== *)

Section Order.
Import JS.
Local Open Scope float_scope.

Lemma SFcompare_Eq_left (a b c : spec_float) :
  SFcompare a b = Some Eq -> SFcompare a c = SFcompare b c.
Proof.
  destruct a as [sa|sa| |sa ma ea], b as [sb|sb| |sb mb eb]; cbn [SFcompare];
    try discriminate; try (destruct sa; discriminate); try (destruct sb; discriminate).
  - reflexivity.
  - destruct sa, sb; try discriminate; reflexivity.
  - rewrite compare_cont_Z.
    destruct sa, sb; try discriminate;
      destruct (Z.compare_spec ea eb) as [E|E|E]; cbn [CompOpp]; try discriminate;
      destruct (Z.compare_spec (Zpos ma) (Zpos mb)) as [E'|E'|E']; cbn [CompOpp];
      try discriminate; intros _; injection E' as ->; subst eb; reflexivity.
Qed.

Lemma leb_ltb_trans (a b c : float) :
  (a <=? b) = true -> (b <? c) = true -> (a <? c) = true.
Proof.
  rewrite leb_spec, !ltb_spec. unfold SFleb, SFltb. intros Hab Hbc.
  destruct (SFcompare (Prim2SF a) (Prim2SF b)) as [[]|] eqn:E1; try discriminate Hab.
  - rewrite (SFcompare_Eq_left _ _ (Prim2SF c) E1). exact Hbc.
  - destruct (SFcompare (Prim2SF b) (Prim2SF c)) as [[]|] eqn:E2; try discriminate Hbc.
    now rewrite (SFcompare_Lt_trans _ _ _ E1 E2).
Qed.

Lemma band_monotone (a b : number) :
  (a <=? b) = true ->
  (band_index (if a <? 18.5 then Underweight else if a <? 25 then Normal
               else if a <? 30 then Overweight else Obese)
   <=? band_index (if b <? 18.5 then Underweight else if b <? 25 then Normal
                   else if b <? 30 then Overweight else Obese)) = true.
Proof.
  intros H.
  pose proof (leb_ltb_trans a b 18.5 H) as H1.
  pose proof (leb_ltb_trans a b 25 H) as H2.
  pose proof (leb_ltb_trans a b 30 H) as H3.
  destruct (b <? 18.5); [rewrite (H1 eq_refl); reflexivity|].
  destruct (b <? 25); [rewrite (H2 eq_refl); destruct (a <? 18.5); reflexivity|].
  destruct (b <? 30);
    [rewrite (H3 eq_refl); destruct (a <? 18.5); [|destruct (a <? 25)]; reflexivity|].
  destruct (a <? 18.5); [|destruct (a <? 25); [|destruct (a <? 30)]]; reflexivity.
Qed.

(** X3. Classification is monotone, on both screens: of two BMIs the larger
    (or equal) one is never put in a lower band (bands counted 0 to 3 from
    Underweight to Obese). *)
Theorem larger_bmi_never_lower_band (a b : number) :
  (a <=? b) = true ->
  (band_index (Dark.label (Dark.getBmiCategory a))
   <=? band_index (Dark.label (Dark.getBmiCategory b))) = true
  /\ (band_index (Light.label (Light.getBmiCategory a))
      <=? band_index (Light.label (Light.getBmiCategory b))) = true.
Proof.
  intros H. rewrite !Dark_label_cases, !Light_label_cases.
  split; exact (band_monotone a b H).
Qed.

Lemma larger_bmi_witness :
  (band_index (Dark.label (Dark.getBmiCategory 24.5))
   <=? band_index (Dark.label (Dark.getBmiCategory 25))) = true
  /\ (band_index (Light.label (Light.getBmiCategory 24.5))
      <=? band_index (Light.label (Light.getBmiCategory 25))) = true.
Proof. exact (larger_bmi_never_lower_band 24.5 25 eq_refl). Defined.

End Order.

(* ===================================================================== *)
(** * The alphabet of numeric text                                      *)
(* ===================================================================== *)

Section Alphabet.
Import JS.
Local Open Scope float_scope.

Lemma replace_keeps (c : code_unit) (s : jsstring) :
  c <> comma -> In c s -> In c (replace s (str ",") (str ".")).
Proof.
  intros Hc. induction s as [|x t IH]; [easy|].
  rewrite replace_comma_cons. intros [->|Hin].
  - destruct (N.eqb_spec comma c) as [E|_]; [congruence | now left].
  - destruct (comma =? x)%N; right; [exact Hin | exact (IH Hin)].
Qed.

Lemma digitValue_numeric (radix : N) (c : code_unit) (d : N) :
  digitValue radix c = Some d -> numeric_unit c = true.
Proof.
  unfold digitValue, numeric_unit, isDecimalDigit.
  destruct ((48 <=? c)%N && (c <=? 57)%N) eqn:E1; [reflexivity|].
  destruct ((97 <=? c)%N && (c <=? 102)%N) eqn:E2.
  - apply andb_true_iff in E2 as [Hl Hu]. apply N.leb_le in Hl, Hu. intros _.
    assert (H : c = 97%N \/ c = 98%N \/ c = 99%N \/ c = 100%N \/ c = 101%N \/ c = 102%N)
      by lia.
    destruct H as [->|[->|[->|[->|[->| ->]]]]]; reflexivity.
  - destruct ((65 <=? c)%N && (c <=? 70)%N) eqn:E3; [|discriminate].
    apply andb_true_iff in E3 as [Hl Hu]. apply N.leb_le in Hl, Hu. intros _.
    assert (H : c = 65%N \/ c = 66%N \/ c = 67%N \/ c = 68%N \/ c = 69%N \/ c = 70%N)
      by lia.
    destruct H as [->|[->|[->|[->|[->| ->]]]]]; reflexivity.
Qed.

Lemma digits_numeric (radix : N) (s : jsstring) (acc v : N) :
  digits radix acc s = Some v -> forallb numeric_unit s = true.
Proof.
  revert acc. induction s as [|c t IH]; intros acc H; [reflexivity|].
  cbn [digits] in H. destruct (digitValue radix c) as [d|] eqn:Ed; [|discriminate].
  cbn [forallb]. rewrite (digitValue_numeric _ _ _ Ed), (IH _ H). reflexivity.
Qed.

Lemma span_numeric (s a b : jsstring) :
  span isDecimalDigit s = (a, b) -> s = a ++ b /\ forallb numeric_unit a = true.
Proof.
  revert a b. induction s as [|c t IH]; intros a b H; cbn [span] in H.
  - injection H as <- <-. split; reflexivity.
  - destruct (isDecimalDigit c) eqn:Ec.
    + destruct (span isDecimalDigit t) as [a' b'] eqn:Es.
      injection H as <- <-. destruct (IH _ _ eq_refl) as [-> Hn].
      split; [reflexivity|]. cbn [forallb]. unfold numeric_unit at 1. rewrite Ec, Hn. reflexivity.
    + injection H as <- <-. split; reflexivity.
Qed.

Lemma signed_numeric (s u : jsstring) (neg : bool) :
  signed s = (neg, u) -> forallb numeric_unit u = true -> forallb numeric_unit s = true.
Proof.
  unfold signed. destruct s as [|c r]; [intros H; injection H as _ <-; auto|].
  destruct (N.eqb_spec c plus_sign) as [->|_].
  - intros H. injection H as _ <-. intros Hr. cbn [forallb]. rewrite Hr. reflexivity.
  - destruct (N.eqb_spec c minus_sign) as [->|_].
    + intros H. injection H as _ <-. intros Hr. cbn [forallb]. rewrite Hr. reflexivity.
    + intros H. injection H as _ <-. auto.
Qed.

Lemma ExponentPart_numeric (s : jsstring) (x : Z) :
  ExponentPart s = Some x -> forallb numeric_unit s = true.
Proof.
  unfold ExponentPart. destruct s as [|c r]; [reflexivity|].
  destruct ((c =? 101)%N || (c =? 69)%N) eqn:Ec; [|discriminate].
  destruct (signed r) as [neg ds] eqn:Es.
  destruct ds as [|d ds']; [discriminate|].
  destruct (digits 10 0 (d :: ds')) as [v|] eqn:Ed; [|discriminate].
  intros _. cbn [forallb].
  rewrite (signed_numeric _ _ _ Es (digits_numeric _ _ _ _ Ed)), andb_true_r.
  apply orb_true_iff in Ec as [E|E]; apply N.eqb_eq in E; subst c; reflexivity.
Qed.

Lemma StrUnsignedDecimalLiteral_numeric (neg : bool) (u : jsstring) (v : number) :
  StrUnsignedDecimalLiteral neg u = Some v -> forallb numeric_unit u = true.
Proof.
  unfold StrUnsignedDecimalLiteral.
  destruct (span isDecimalDigit u) as [ip r1] eqn:E1.
  destruct (span_numeric _ _ _ E1) as [-> Hip].
  set (second := match r1 with
                 | c :: r => if (c =? period)%N then span isDecimalDigit r else ([], r1)
                 | [] => ([], r1)
                 end).
  destruct second as [fp r2] eqn:E2.
  assert (Hr1 : forallb numeric_unit r2 = true -> forallb numeric_unit r1 = true).
  { subst second. destruct r1 as [|c r].
    - reflexivity.
    - destruct (N.eqb_spec c period) as [->|_].
      + destruct (span_numeric _ _ _ E2) as [-> Hfp]. intros H.
        cbn [forallb]. rewrite forallb_app, Hfp, H. reflexivity.
      + injection E2 as <- <-. auto. }
  destruct (ip ++ fp) as [|d ds]; [discriminate|].
  destruct (digits 10 0 (d :: ds)) as [m|]; [|discriminate].
  destruct (ExponentPart r2) as [x|] eqn:Ex; [|discriminate].
  intros _. rewrite forallb_app, Hip. apply Hr1. exact (ExponentPart_numeric _ _ Ex).
Qed.

Lemma jsstring_eqb_eq (a b : jsstring) : jsstring_eqb a b = true -> a = b.
Proof.
  revert b. induction a as [|x a IH]; destruct b as [|y b]; cbn [jsstring_eqb];
    try discriminate; [reflexivity|].
  intros Hab. apply andb_true_iff in Hab as [Hx Hab].
  apply N.eqb_eq in Hx. subst y. f_equal. auto.
Qed.

Lemma StrDecimalLiteral_numeric (t : jsstring) (v : number) :
  StrDecimalLiteral t = Some v -> forallb numeric_unit t = true.
Proof.
  unfold StrDecimalLiteral. destruct (signed t) as [neg u] eqn:Es.
  intros H. apply (signed_numeric _ _ _ Es).
  destruct (jsstring_eqb u (str "Infinity")) eqn:Ei.
  - rewrite (jsstring_eqb_eq _ _ Ei). reflexivity.
  - exact (StrUnsignedDecimalLiteral_numeric _ _ _ H).
Qed.

Lemma NonDecimalIntegerLiteral_numeric (t : jsstring) (v : number) :
  NonDecimalIntegerLiteral t = Some v -> forallb numeric_unit t = true.
Proof.
  unfold NonDecimalIntegerLiteral.
  destruct t as [|z [|c ds]]; try discriminate.
  destruct (N.eqb_spec z 48) as [->|_]; [|discriminate].
  assert (Hc : (if (c =? 98)%N || (c =? 66)%N then Some 2%N
                else if (c =? 111)%N || (c =? 79)%N then Some 8%N
                else if (c =? 120)%N || (c =? 88)%N then Some 16%N
                else None) <> None -> numeric_unit c = true).
  { destruct (N.eqb_spec c 98) as [->|_]; [reflexivity|].
    destruct (N.eqb_spec c 66) as [->|_]; [reflexivity|].
    destruct (N.eqb_spec c 111) as [->|_]; [reflexivity|].
    destruct (N.eqb_spec c 79) as [->|_]; [reflexivity|].
    destruct (N.eqb_spec c 120) as [->|_]; [reflexivity|].
    destruct (N.eqb_spec c 88) as [->|_]; [reflexivity|].
    cbn [orb]. congruence. }
  destruct (if (c =? 98)%N || (c =? 66)%N then Some 2%N
            else if (c =? 111)%N || (c =? 79)%N then Some 8%N
            else if (c =? 120)%N || (c =? 88)%N then Some 16%N
            else None) as [r|]; [|discriminate].
  destruct ds as [|d ds']; [discriminate|].
  destruct (digits r 0 (d :: ds')) as [n|] eqn:Ed; [|discriminate].
  intros _. cbn [forallb] in *.
  rewrite Hc by discriminate.
  pose proof (digits_numeric _ _ _ _ Ed) as Hds. cbn [forallb] in Hds. rewrite Hds.
  reflexivity.
Qed.

(** A text [Number] reads as a number holds, white space apart, numeric
    units only. *)
Lemma Number_numeric (s : jsstring) (c : code_unit) :
  is_nan (Number s) = false -> In c s -> isWhiteSpace c = false -> numeric_unit c = true.
Proof.
  intros Hn Hin Hw. unfold Number in Hn.
  pose proof (trim_keeps c s Hw Hin) as Ht.
  destruct (trim s) as [|x t] eqn:E; [destruct Ht|].
  unfold StrNumericLiteral in Hn.
  assert (Hall : forallb numeric_unit (x :: t) = true).
  { destruct (NonDecimalIntegerLiteral (x :: t)) as [v|] eqn:E1.
    - exact (NonDecimalIntegerLiteral_numeric _ _ E1).
    - destruct (StrDecimalLiteral (x :: t)) as [v|] eqn:E2.
      + exact (StrDecimalLiteral_numeric _ _ E2).
      + discriminate Hn. }
  rewrite forallb_forall in Hall. exact (Hall c Ht).
Qed.

Lemma parseNumber_numeric (s : jsstring) (v : number) (c : code_unit) :
  Dark.parseNumber s = Some v -> In c s ->
  numeric_unit c = true \/ isWhiteSpace c = true \/ c = comma.
Proof.
  rewrite parseNumber_cases. cbv zeta. intros H Hin.
  destruct (N.eq_dec c comma) as [->|Hc]; [now right; right|].
  destruct (isWhiteSpace c) eqn:Hw; [now right; left|]. left.
  pose proof (trim_keeps c _ Hw (replace_keeps c s Hc Hin)) as Ht.
  destruct (trim (replace s (str ",") (str "."))) as [|x t]; [discriminate H|].
  destruct (Number_isFinite (Number (x :: t))) eqn:Ef; [|discriminate H].
  unfold Number_isFinite in Ef. apply andb_true_iff in Ef as [Ef _].
  apply negb_true_iff in Ef.
  exact (Number_numeric _ c Ef Ht Hw).
Qed.

Lemma parseNumber_stray (s : jsstring) (c : code_unit) :
  In c s -> numeric_unit c = false -> isWhiteSpace c = false -> c <> comma ->
  Dark.parseNumber s = None.
Proof.
  intros Hin Hn Hw Hc. destruct (Dark.parseNumber s) as [v|] eqn:E; [|reflexivity].
  destruct (parseNumber_numeric s v c E Hin) as [H|[H|H]]; congruence.
Qed.

Lemma Dark_rejected_display (st : Dark.state) :
  Dark.valid (Dark.heightValue st) (Dark.weightValue st) = false ->
  Dark.display (Dark.onCalculate st) = Invalid.
Proof. intros H. unfold Dark.onCalculate. rewrite H. reflexivity. Qed.

Lemma Light_rejected_display (st : Light.state) :
  Dark.valid (Light.heightValue st) (Light.weightValue st) = false ->
  Light.display (Light.onCalculate st) = Invalid.
Proof.
  intros H. unfold Light.onCalculate. change Light.valid with Dark.valid.
  rewrite H. reflexivity.
Qed.

Lemma valid_None_l (w : option number) : Dark.valid None w = false.
Proof. reflexivity. Qed.

Lemma valid_None_r (h : option number) : Dark.valid h None = false.
Proof. unfold Dark.valid. destruct h; reflexivity. Qed.

(** X4. A text [parseNumber] reads as a number holds only numeric units,
    white space and commas; so a calculation with any other character in the
    height or the weight text (a unit such as kg, say) is rejected, on both
    screens. *)
Theorem stray_character_is_rejected :
  (forall (s : jsstring) (v : number) (c : code_unit),
      Dark.parseNumber s = Some v -> In c s ->
      numeric_unit c = true \/ isWhiteSpace c = true \/ c = comma)
  /\ (forall (st : Dark.state) (c : code_unit),
      In c (Dark.heightCm st) \/ In c (Dark.weightKg st) ->
      numeric_unit c = false -> isWhiteSpace c = false -> c <> comma ->
      Dark.display (Dark.onCalculate st) = Invalid)
  /\ (forall (st : Light.state) (c : code_unit),
      In c (Light.heightCm st) \/ In c (Light.weightKg st) ->
      numeric_unit c = false -> isWhiteSpace c = false -> c <> comma ->
      Light.display (Light.onCalculate st) = Invalid).
Proof.
  split; [exact parseNumber_numeric|]. split.
  - intros st c [Hin|Hin] Hn Hw Hc; apply Dark_rejected_display.
    + unfold Dark.heightValue. rewrite (parseNumber_stray _ c Hin Hn Hw Hc).
      apply valid_None_l.
    + unfold Dark.weightValue. rewrite (parseNumber_stray _ c Hin Hn Hw Hc).
      apply valid_None_r.
  - intros st c [Hin|Hin] Hn Hw Hc; apply Light_rejected_display.
    + unfold Light.heightValue. change Light.parseNumber with Dark.parseNumber.
      rewrite (parseNumber_stray _ c Hin Hn Hw Hc). apply valid_None_l.
    + unfold Light.weightValue. change Light.parseNumber with Dark.parseNumber.
      rewrite (parseNumber_stray _ c Hin Hn Hw Hc). apply valid_None_r.
Qed.

Lemma stray_character_witness :
  (numeric_unit 53%N = true \/ isWhiteSpace 53%N = true \/ 53%N = comma)
  /\ Dark.display (Dark.onCalculate (dark_state "172" "68kg")) = Invalid
  /\ Light.display (Light.onCalculate (light_state "172cm" "68")) = Invalid.
Proof.
  pose proof stray_character_is_rejected as [HP [HD HL]].
  refine (conj (HP (str "68,5") 68.5 53%N _ _)
            (conj (HD (dark_state "172" "68kg") 107%N _ _ _ _)
               (HL (light_state "172cm" "68") 109%N _ _ _ _)));
    try (vm_compute; reflexivity); try discriminate; vm_compute; auto 10.
Defined.

End Alphabet.

(* ===================================================================== *)
(** * The handlers, once more                                           *)
(* ===================================================================== *)

Section Handlers.
Import JS.
Local Open Scope float_scope.

Lemma Dark_onCalculate_setBmi (st : Dark.state) (b : option number) :
  Dark.onCalculate (Dark.setBmi b st)
  = (Dark.setBmi (Dark.bmi (fst (Dark.onCalculate st))) st, snd (Dark.onCalculate st)).
Proof.
  unfold Dark.onCalculate.
  change (Dark.heightValue (Dark.setBmi b st)) with (Dark.heightValue st).
  change (Dark.weightValue (Dark.setBmi b st)) with (Dark.weightValue st).
  destruct (Dark.valid _ _); reflexivity.
Qed.

Lemma Dark_onCalculate_state (st : Dark.state) :
  fst (Dark.onCalculate st) = Dark.setBmi (Dark.bmi (fst (Dark.onCalculate st))) st.
Proof. unfold Dark.onCalculate. destruct (Dark.valid _ _); reflexivity. Qed.

Lemma Light_onCalculate_setBmi (st : Light.state) (b : option number) :
  Light.onCalculate (Light.setBmi b st)
  = (Light.setBmi (Light.bmi (fst (Light.onCalculate st))) st, snd (Light.onCalculate st)).
Proof.
  unfold Light.onCalculate.
  change (Light.heightValue (Light.setBmi b st)) with (Light.heightValue st).
  change (Light.weightValue (Light.setBmi b st)) with (Light.weightValue st).
  destruct (Light.valid _ _); reflexivity.
Qed.

Lemma Light_onCalculate_state (st : Light.state) :
  fst (Light.onCalculate st) = Light.setBmi (Light.bmi (fst (Light.onCalculate st))) st.
Proof. unfold Light.onCalculate. destruct (Light.valid _ _); reflexivity. Qed.

(** X5. [onCalculate] reads the two texts only: it leaves them as they are,
    its effects and the value it stores do not depend on the value stored
    before, and calculating a second time gives the same state and the same
    effects as the first, accepted or rejected, on both screens. *)
Theorem calculate_again_changes_nothing :
  (forall st : Dark.state,
      Dark.onCalculate (fst (Dark.onCalculate st)) = Dark.onCalculate st
      /\ Dark.heightCm (fst (Dark.onCalculate st)) = Dark.heightCm st
      /\ Dark.weightKg (fst (Dark.onCalculate st)) = Dark.weightKg st)
  /\ (forall st : Light.state,
      Light.onCalculate (fst (Light.onCalculate st)) = Light.onCalculate st
      /\ Light.heightCm (fst (Light.onCalculate st)) = Light.heightCm st
      /\ Light.weightKg (fst (Light.onCalculate st)) = Light.weightKg st)
  /\ (forall (st : Dark.state) (b : option number),
      snd (Dark.onCalculate (Dark.setBmi b st)) = snd (Dark.onCalculate st)
      /\ Dark.bmi (fst (Dark.onCalculate (Dark.setBmi b st)))
         = Dark.bmi (fst (Dark.onCalculate st)))
  /\ (forall (st : Light.state) (b : option number),
      snd (Light.onCalculate (Light.setBmi b st)) = snd (Light.onCalculate st)
      /\ Light.bmi (fst (Light.onCalculate (Light.setBmi b st)))
         = Light.bmi (fst (Light.onCalculate st))).
Proof.
  split; [|split; [|split]].
  - intros st. split; [|rewrite Dark_onCalculate_state; split; reflexivity].
    rewrite (Dark_onCalculate_state st) at 1. rewrite Dark_onCalculate_setBmi.
    rewrite <- Dark_onCalculate_state. symmetry. apply surjective_pairing.
  - intros st. split; [|rewrite Light_onCalculate_state; split; reflexivity].
    rewrite (Light_onCalculate_state st) at 1. rewrite Light_onCalculate_setBmi.
    rewrite <- Light_onCalculate_state. symmetry. apply surjective_pairing.
  - intros st b. rewrite Dark_onCalculate_setBmi. split; reflexivity.
  - intros st b. rewrite Light_onCalculate_setBmi. split; reflexivity.
Qed.

(** X6. In every state of the dark screen the colour index is the band of
    the category shown, and 0 (the colour of Underweight) when no result is
    shown; it is always one of the four indices the palette is interpolated
    over. *)
Theorem dark_colour_follows_category (st : Dark.state) :
  Dark.bmiColor st
  = match Dark.category st with
    | Some c => band_index (Dark.label c)
    | None => 0
    end
  /\ (Dark.bmiColor st = 0 \/ Dark.bmiColor st = 1
      \/ Dark.bmiColor st = 2 \/ Dark.bmiColor st = 3).
Proof.
  assert (H : Dark.bmiColor st
              = match Dark.category st with
                | Some c => band_index (Dark.label c)
                | None => 0
                end).
  { unfold Dark.category. destruct (Dark.bmi st) as [v|] eqn:E; cbn [option_map].
    - apply bmiColor_band. exact E.
    - unfold Dark.bmiColor. rewrite E. reflexivity. }
  split; [exact H|]. rewrite H.
  destruct (Dark.category st) as [c|]; [|now left].
  destruct (Dark.label c); cbn [band_index]; auto.
Qed.

End Handlers.

(* ===================================================================== *)
(** * The travel of the indicator                                       *)
(* ===================================================================== *)

Section Travel.
Import JS.
Local Open Scope float_scope.

Lemma Math_max_0_signed (r : float) :
  (has_sign true (Prim2SF r) -> Math_max 0 r = 0)
  /\ (has_sign false (Prim2SF r) -> Math_max 0 r = r).
Proof.
  rewrite Math_max_0, is_nan_spec, (ltb_spec 0 r).
  change (Prim2SF 0) with (S754_zero false). unfold SFltb.
  destruct (Prim2SF r) as [s|s| |s m e] eqn:E; cbn [has_sign SFcompare]; split;
    try (intros ->); try contradiction; try reflexivity.
  apply Prim2SF_inj. rewrite E. reflexivity.
Qed.

(** [x - 16], by the side of 16 that [x] is on. *)
Lemma sub_16_sign (x : spec_float) :
  valid_binary x = true ->
  match SFcompare x (Prim2SF 16) with
  | Some Gt => has_sign false (SFsub prec emax x (Prim2SF 16))
  | Some Lt => has_sign true (SFsub prec emax x (Prim2SF 16))
  | Some Eq => SFsub prec emax x (Prim2SF 16) = S754_zero false
  | None => True
  end.
Proof.
  change (Prim2SF 16) with (S754_finite false 4503599627370496 (-48)).
  intros Hv. destruct x as [s|s| |s m e]; cbn [SFcompare].
  - reflexivity.
  - destruct s; reflexivity.
  - exact I.
  - cbn [valid_binary] in Hv. pose proof (bounded_lt m e Hv) as Hm.
    cbn [SFsub].
    pose proof (shl_align_spec m e (Z.min e (-48))) as [Hx _].
    pose proof (shl_align_spec 4503599627370496 (-48) (Z.min e (-48))) as [Hy _].
    cbn zeta in Hx, Hy.
    pose proof (binary_normalize_sign
                  (cond_Zopp s (Zpos (fst (shl_align m e (Z.min e (-48)))))
                   - cond_Zopp false (Zpos (fst (shl_align 4503599627370496 (-48) (Z.min e (-48))))))
                  (Z.min e (-48))) as Hs.
    set (diff := (cond_Zopp s (Zpos (fst (shl_align m e (Z.min e (-48)))))
                  - cond_Zopp false (Zpos (fst (shl_align 4503599627370496 (-48) (Z.min e (-48))))))%Z)
      in *.
    assert (Hdiff : diff = (cond_Zopp s (Zpos m * 2 ^ Z.max (e - Z.min e (-48)) 0)
                            - 4503599627370496 * 2 ^ Z.max (-48 - Z.min e (-48)) 0)%Z).
    { unfold diff. rewrite Hx, Hy. reflexivity. }
    assert (Hpx : (0 < 2 ^ Z.max (e - Z.min e (-48)) 0)%Z) by (apply Z.pow_pos_nonneg; lia).
    assert (Hpy : (0 < 2 ^ Z.max (-48 - Z.min e (-48)) 0)%Z) by (apply Z.pow_pos_nonneg; lia).
    change (2 ^ 53)%Z with 9007199254740992%Z in Hm.
    destruct s; cbn [cond_Zopp] in Hdiff.
    + (* a negative number *)
      assert (diff < 0)%Z by (rewrite Hdiff; clear - Hpx Hpy; nia).
      destruct diff; [lia | lia | exact Hs].
    + rewrite compare_cont_Z.
      destruct (Z.compare_spec e (-48)) as [E|E|E].
      * subst e. change (Z.max (-48 - Z.min (-48) (-48)) 0) with 0%Z in Hdiff.
        rewrite !Z.pow_0_r in Hdiff.
        destruct (Z.compare_spec (Zpos m) 4503599627370496) as [E'|E'|E'].
        -- assert (E0 : diff = 0%Z) by lia. rewrite E0. reflexivity.
        -- assert (diff < 0)%Z by lia. destruct diff; [lia | lia | exact Hs].
        -- assert (0 < diff)%Z by lia. destruct diff; [lia | exact Hs | lia].
      * rewrite Z.min_l in Hdiff by lia. rewrite Z.sub_diag in Hdiff.
        change (Z.max 0 0) with 0%Z in Hdiff. rewrite Z.pow_0_r, Z.mul_1_r in Hdiff.
        rewrite Z.max_l in Hdiff by lia.
        assert (2 <= 2 ^ (-48 - e))%Z.
        { change 2%Z with (2 ^ 1)%Z at 1. apply Z.pow_le_mono_r; lia. }
        assert (diff < 0)%Z by (rewrite Hdiff; clear - Hm H; nia).
        destruct diff; [lia | lia | exact Hs].
      * pose proof (bounded_normal m e Hv ltac:(lia)) as Hn.
        change (2 ^ 52)%Z with 4503599627370496%Z in Hn.
        rewrite Z.min_r in Hdiff by lia. rewrite Z.sub_diag in Hdiff.
        change (Z.max 0 0) with 0%Z in Hdiff. rewrite Z.pow_0_r, Z.mul_1_r in Hdiff.
        rewrite Z.max_l in Hdiff by lia.
        assert (2 <= 2 ^ (e - -48))%Z.
        { change 2%Z with (2 ^ 1)%Z at 1. apply Z.pow_le_mono_r; lia. }
        assert (0 < diff)%Z by (rewrite Hdiff; clear - Hn H; nia).
        destruct diff; [lia | exact Hs | lia].
Qed.

(** X7. For every bar width that is a number, the indicator's travel is 0
    for a bar no wider than 16 and [barWidth - 16] for a wider one; it is
    never negative, so the range [[0, travel]] is never inverted. *)
Theorem indicator_travel_by_cases (barWidth : number) :
  is_nan barWidth = false ->
  indicatorTravel barWidth = (if barWidth <=? 16 then 0 else barWidth - 16)
  /\ (0 <=? indicatorTravel barWidth) = true.
Proof.
  intros Hn. rewrite is_nan_spec in Hn.
  pose proof (sub_16_sign (Prim2SF barWidth) (Prim2SF_valid barWidth)) as H.
  assert (E : indicatorTravel barWidth = (if barWidth <=? 16 then 0 else barWidth - 16)).
  { unfold indicatorTravel.
    destruct (Math_max_0_signed (barWidth - 16)) as [Hneg Hpos].
    rewrite sub_spec in Hneg, Hpos. unfold SF64sub in Hneg, Hpos.
    rewrite leb_spec. unfold SFleb.
    destruct (SFcompare (Prim2SF barWidth) (Prim2SF 16)) as [[]|] eqn:Ec.
    - destruct (Math_max_0_signed (barWidth - 16)) as [_ Hz].
      rewrite sub_spec in Hz. unfold SF64sub in Hz. rewrite H in Hz.
      rewrite (Hz eq_refl). apply Prim2SF_inj. rewrite sub_spec. unfold SF64sub.
      rewrite H. reflexivity.
    - exact (Hneg H).
    - exact (Hpos H).
    - exfalso. destruct (Prim2SF barWidth) as [s|s| |s m e]; try discriminate Hn;
        cbn [SFcompare] in Ec; try discriminate Ec; destruct s; discriminate Ec. }
  split; [exact E|]. rewrite E.
  destruct (barWidth <=? 16) eqn:El; [reflexivity|].
  rewrite leb_spec in El. unfold SFleb in El.
  rewrite leb_spec, sub_spec. unfold SFleb, SF64sub.
  change (Prim2SF 0) with (S754_zero false).
  destruct (SFcompare (Prim2SF barWidth) (Prim2SF 16)) as [[]|] eqn:Ec;
    try discriminate El.
  - destruct (SFsub prec emax (Prim2SF barWidth) (Prim2SF 16)) as [s|s| |s m e];
      cbn [has_sign] in H; try subst s; try contradiction; reflexivity.
  - exfalso. destruct (Prim2SF barWidth) as [s|s| |s m e]; try discriminate Hn;
      cbn [SFcompare] in Ec; try discriminate Ec; destruct s; discriminate Ec.
Qed.

Lemma indicator_travel_witness :
  indicatorTravel 320 = 304 /\ indicatorTravel 12 = 0.
Proof.
  exact (conj (proj1 (indicator_travel_by_cases 320 eq_refl))
           (proj1 (indicator_travel_by_cases 12 eq_refl))).
Defined.

End Travel.

(* ===================================================================== *)
(** * Whole numbers, typed in                                           *)
(* ===================================================================== *)

Section WholeNumbers.
Import JS.
Local Open Scope float_scope.

(** ** The digits of a natural number, read back *)

Lemma digits_of_uint_value (u : Decimal.uint) (acc : N) :
  digits 10 acc (digits_of_uint u)
  = Some (match acc with
          | N0 => N.of_uint u
          | Npos a => Npos (Pos.of_uint_acc u a)
          end).
Proof.
  revert acc. unfold N.of_uint.
  induction u as [|u IH|u IH|u IH|u IH|u IH|u IH|u IH|u IH|u IH|u IH]; intros acc;
    cbn [digits_of_uint digits];
    [destruct acc; reflexivity | ..];
    (change (digitValue 10 48%N) with (Some 0%N)
     || change (digitValue 10 49%N) with (Some 1%N)
     || change (digitValue 10 50%N) with (Some 2%N)
     || change (digitValue 10 51%N) with (Some 3%N)
     || change (digitValue 10 52%N) with (Some 4%N)
     || change (digitValue 10 53%N) with (Some 5%N)
     || change (digitValue 10 54%N) with (Some 6%N)
     || change (digitValue 10 55%N) with (Some 7%N)
     || change (digitValue 10 56%N) with (Some 8%N)
     || change (digitValue 10 57%N) with (Some 9%N));
    cbv iota beta; rewrite IH; destruct acc as [|a];
    cbn [N.mul N.add Pos.of_uint Pos.of_uint_acc]; try reflexivity;
    do 2 f_equal; apply (f_equal (Pos.of_uint_acc u)); lia.
Qed.

Lemma decimal_value_back (n : N) : digits 10 0 (decimal (Z.of_N n)) = Some n.
Proof.
  unfold decimal. rewrite N2Z.id, digits_of_uint_value.
  rewrite DecimalN.Unsigned.of_to. reflexivity.
Qed.

Lemma decimal_nonempty (z : Z) : decimal z <> [].
Proof.
  unfold decimal. destruct (Z.to_N z) as [|p] eqn:E; [discriminate|].
  intros H. pose proof (digits_of_uint_value (N.to_uint (Npos p)) 0) as Hv.
  rewrite H, DecimalN.Unsigned.of_to in Hv. discriminate Hv.
Qed.

(** ** Text made of decimal digits *)

Lemma decimal_digit_range (c : code_unit) :
  isDecimalDigit c = true -> (48 <= c <= 57)%N.
Proof.
  unfold isDecimalDigit. intros H. apply andb_true_iff in H as [H1 H2].
  apply N.leb_le in H1, H2. lia.
Qed.

Lemma decimal_digit_not_blank (c : code_unit) :
  isDecimalDigit c = true -> isWhiteSpace c = false.
Proof.
  intros H. apply decimal_digit_range in H. unfold isWhiteSpace. cbn [existsb].
  repeat match goal with
         | |- context [(c =? ?k)%N] =>
           destruct (N.eqb_spec c k) as [E|_]; [exfalso; clear - H E; lia|]
         end.
  cbn [orb]. apply andb_false_iff. left. apply N.leb_gt. lia.
Qed.

Lemma trimStart_cons (c : code_unit) (s : jsstring) :
  isWhiteSpace c = false -> trimStart (c :: s) = c :: s.
Proof. intros H. cbn [trimStart]. rewrite H. reflexivity. Qed.

(** [trim] leaves a text alone that has no white space. *)
Lemma trim_none (s : jsstring) :
  forallb isDecimalDigit s = true -> trim s = s.
Proof.
  intros H. rewrite forallb_forall in H.
  assert (Hs : forall t : jsstring,
             (forall c, In c t -> isDecimalDigit c = true) -> trimStart t = t).
  { intros [|c t] Ht; [reflexivity|].
    apply trimStart_cons, decimal_digit_not_blank, Ht. now left. }
  unfold trim, trimEnd. rewrite (Hs s H). rewrite Hs.
  - apply rev_involutive.
  - intros c Hc. apply H. apply in_rev. exact Hc.
Qed.

Lemma span_digits (s : jsstring) :
  forallb isDecimalDigit s = true -> span isDecimalDigit s = (s, []).
Proof.
  induction s as [|c t IH]; cbn [forallb span]; [reflexivity|].
  intros H. apply andb_true_iff in H as [Hc Ht]. rewrite Hc, (IH Ht). reflexivity.
Qed.

Lemma digits_no_comma_in (s : jsstring) :
  forallb isDecimalDigit s = true -> ~ In comma s.
Proof.
  intros H Hin. rewrite forallb_forall in H. specialize (H _ Hin). discriminate H.
Qed.

(** A text of digits is a decimal literal with no fraction and no exponent. *)
Lemma StrNumericLiteral_digits (s : jsstring) (n : N) :
  s <> [] -> forallb isDecimalDigit s = true -> digits 10 0 s = Some n ->
  StrNumericLiteral s = Some (decimal_value false n 0).
Proof.
  intros Hne Hd Hv. unfold StrNumericLiteral.
  assert (Hnd : NonDecimalIntegerLiteral s = None).
  { unfold NonDecimalIntegerLiteral. destruct s as [|z [|c ds]]; try reflexivity.
    cbn [forallb] in Hd. apply andb_true_iff in Hd as [_ Hd].
    apply andb_true_iff in Hd as [Hc _]. apply decimal_digit_range in Hc.
    repeat match goal with
           | |- context [(c =? ?k)%N] =>
             destruct (N.eqb_spec c k) as [E|_]; [exfalso; clear - Hc E; lia|]
           end.
    cbn [orb]. destruct (z =? 48)%N; reflexivity. }
  rewrite Hnd. unfold StrDecimalLiteral.
  destruct s as [|c t]; [congruence|].
  assert (Hc : (48 <= c <= 57)%N).
  { apply decimal_digit_range. cbn [forallb] in Hd. apply andb_true_iff in Hd as [Hc _].
    exact Hc. }
  unfold signed.
  destruct (N.eqb_spec c plus_sign) as [E|_]; [exfalso; clear - Hc E; unfold plus_sign in E; lia|].
  destruct (N.eqb_spec c minus_sign) as [E|_]; [exfalso; clear - Hc E; unfold minus_sign in E; lia|].
  assert (Hinf : jsstring_eqb (c :: t) (str "Infinity") = false).
  { change (str "Infinity") with (73%N :: str "nfinity"). cbn [jsstring_eqb].
    destruct (N.eqb_spec c 73) as [E|_]; [exfalso; clear - Hc E; lia | reflexivity]. }
  rewrite Hinf. unfold StrUnsignedDecimalLiteral.
  rewrite (span_digits _ Hd). rewrite app_nil_r, Hv. reflexivity.
Qed.

(** ** The number of a whole number below [2 ^ 53] *)

Local Open Scope Z_scope.

Lemma round_ratio_whole (z : Z) :
  0 <= z < 2 ^ 53 -> round_ratio false z 1 = round_integer z.
Proof.
  intros Hz. destruct z as [|r|r]; [reflexivity | | lia].
  unfold round_ratio.
  assert (Hd : Zpos (digits2_pos r) <= 53).
  { pose proof (digits2_bounds r) as [Dl _].
    assert (Zpos (digits2_pos r) - 1 < 53) by (apply (Z.pow_lt_mono_r_iff 2); lia).
    lia. }
  destruct (round_integer_exact r Hd) as (mk & -> & Hmk & Hn).
  set (d := Zpos (digits2_pos r)) in *.
  assert (Hd0 : 0 < d) by (unfold d; lia).
  rewrite (SFdiv_core_quotient r 1 0 0). cbn zeta. cbn [Zdigits2]. fold d.
  change (Zpos (digits2_pos 1)) with 1. rewrite fexp_eq.
  replace (Z.min (Z.max (d + 0 - (1 + 0) - 53) (-1074)) (0 - 0)) with (d - 54) by lia.
  replace (0 - 0 - (d - 54)) with (54 - d) by lia.
  rewrite Z.mod_1_r, Z.div_1_r. change (new_location 1 0) with loc_Exact.
  assert (Hq : Zpos r * 2 ^ (54 - d) = Zpos mk~0).
  { rewrite (Pos2Z.inj_xO mk), Hmk.
    replace (54 - d) with (Z.succ (53 - d)) by lia. rewrite Z.pow_succ_r by lia. ring. }
  rewrite Hq.
  assert (Hdk : Zpos (digits2_pos mk) = 53) by (apply digits2_unique; lia).
  unfold binary_round_aux, shr_fexp.
  cbn [Zdigits2 digits2_pos shr_record_of_loc]. rewrite Pos2Z.inj_succ, Hdk, fexp_eq.
  replace (Z.max (Z.succ 53 + (d - 54) - 53) (-1074) - (d - 54)) with 1 by lia.
  cbn [shr iter_pos shr_1 orb shr_m loc_of_shr_record round_nearest_even Zdigits2
         shr_record_of_loc].
  rewrite Hdk, fexp_eq.
  replace (Z.max (53 + (d - 54 + 1) - 53) (-1074) - (d - 54 + 1)) with 0 by lia.
  cbn [shr shr_m]. change (emax - prec) with 971.
  replace (d - 54 + 1 <=? 971) with true by (symmetry; apply Z.leb_le; lia).
  f_equal. lia.
Qed.

Local Open Scope float_scope.

Lemma whole_number_finite (z : Z) :
  (0 <= z < 2 ^ 53)%Z -> Number_isFinite (SF2Prim (round_integer z)) = true.
Proof.
  intros Hz. unfold Number_isFinite, is_infinity.
  rewrite is_nan_spec, eqb_spec, abs_spec.
  rewrite Prim2SF_SF2Prim by (apply round_integer_valid; exact Hz).
  destruct z as [|r|r]; [reflexivity | | lia].
  assert (Hd : (Zpos (digits2_pos r) <= 53)%Z).
  { pose proof (digits2_bounds r) as [Dl _].
    assert (Zpos (digits2_pos r) - 1 < 53)%Z by (apply (Z.pow_lt_mono_r_iff 2); lia).
    lia. }
  destruct (round_integer_exact r Hd) as (mk & -> & _). reflexivity.
Qed.

(** X8. The decimal digits of a whole number below 2 ^ 53 are read back as
    that number, exactly, on both screens: [parseNumber] of the text is the
    binary64 number of the integer (which is representable, so nothing is
    rounded). *)
Theorem whole_number_text_is_read_back (z : Z) :
  (0 <= z < 2 ^ 53)%Z ->
  Dark.parseNumber (decimal z) = Some (SF2Prim (round_integer z))
  /\ Light.parseNumber (decimal z) = Some (SF2Prim (round_integer z))
  /\ Prim2SF (SF2Prim (round_integer z)) = round_integer z.
Proof.
  intros Hz.
  assert (E : Dark.parseNumber (decimal z) = Some (SF2Prim (round_integer z))).
  { rewrite parseNumber_cases. cbv zeta.
    pose proof (digits_of_uint_decimal (N.to_uint (Z.to_N z))) as Hd.
    fold (decimal z) in Hd.
    rewrite (replace_no_comma _ (digits_no_comma_in _ Hd)), (trim_none _ Hd).
    pose proof (decimal_nonempty z) as Hne.
    assert (EN : Number (decimal z) = SF2Prim (round_integer z)).
    { unfold Number. rewrite (trim_none _ Hd).
      pose proof (decimal_value_back (Z.to_N z)) as Hv. rewrite Z2N.id in Hv by lia.
      pose proof (StrNumericLiteral_digits _ _ Hne Hd Hv) as Hs.
      destruct (decimal z) as [|c t]; [congruence|]. rewrite Hs.
      unfold decimal_value. change (0 <=? 0)%Z with true. cbv iota.
      rewrite Z.pow_0_r, Z.mul_1_r, Z2N.id by lia.
      rewrite round_ratio_whole by exact Hz. reflexivity. }
    rewrite EN, (whole_number_finite z Hz).
    destruct (decimal z); [congruence | reflexivity]. }
  split; [exact E|]. split; [exact E|].
  apply Prim2SF_SF2Prim, round_integer_valid. exact Hz.
Qed.

Lemma whole_number_witness :
  Dark.parseNumber (str "172") = Some 172 /\ Light.parseNumber (str "68") = Some 68.
Proof.
  exact (conj (proj1 (whole_number_text_is_read_back 172 ltac:(lia)))
           (proj1 (proj2 (whole_number_text_is_read_back 68 ltac:(lia))))).
Defined.


(** ** Whole numbers compare as integers *)

Local Open Scope Z_scope.

Lemma whole_compare (a b : positive) :
  Zpos a < 2 ^ 53 -> Zpos b < 2 ^ 53 ->
  SFcompare (round_integer (Zpos a)) (round_integer (Zpos b)) = Some (Zpos a ?= Zpos b).
Proof.
  intros Ha Hb.
  pose proof (digits2_bounds a) as [Al Au]. pose proof (digits2_bounds b) as [Bl Bu].
  assert (Hda : Zpos (digits2_pos a) <= 53).
  { assert (Zpos (digits2_pos a) - 1 < 53) by (apply (Z.pow_lt_mono_r_iff 2); lia). lia. }
  assert (Hdb : Zpos (digits2_pos b) <= 53).
  { assert (Zpos (digits2_pos b) - 1 < 53) by (apply (Z.pow_lt_mono_r_iff 2); lia). lia. }
  destruct (round_integer_exact a Hda) as (ma & -> & Hma & _).
  destruct (round_integer_exact b Hdb) as (mb & -> & Hmb & _).
  set (da := Zpos (digits2_pos a)) in *. set (db := Zpos (digits2_pos b)) in *.
  assert (Hda0 : 0 < da) by (unfold da; lia).
  assert (Hdb0 : 0 < db) by (unfold db; lia).
  cbn [SFcompare]. rewrite compare_cont_Z. f_equal.
  destruct (Z.compare_spec (da - 53) (db - 53)) as [E|E|E].
  - assert (Ed : da = db) by lia. rewrite Hma, Hmb, Ed.
    assert (Hp : 0 < 2 ^ (53 - db)) by (apply Z.pow_pos_nonneg; lia).
    set (P := 2 ^ (53 - db)) in *. clearbody P.
    destruct (Z.compare_spec (Zpos a * P) (Zpos b * P)), (Z.compare_spec (Zpos a) (Zpos b));
      try reflexivity; exfalso; nia.
  - symmetry. apply Z.compare_lt_iff.
    assert (2 ^ da <= 2 ^ (db - 1)) by (apply Z.pow_le_mono_r; lia). lia.
  - symmetry. apply Z.compare_gt_iff.
    assert (2 ^ db <= 2 ^ (da - 1)) by (apply Z.pow_le_mono_r; lia). lia.
Qed.

Local Open Scope float_scope.

Lemma whole_ltb (a b : Z) :
  (0 <= a < 2 ^ 53)%Z -> (0 <= b < 2 ^ 53)%Z ->
  (SF2Prim (round_integer a) <? SF2Prim (round_integer b)) = (a <? b)%Z.
Proof.
  intros Ha Hb. rewrite ltb_spec.
  rewrite !Prim2SF_SF2Prim by (apply round_integer_valid; assumption).
  unfold SFltb.
  destruct a as [|a|a], b as [|b|b]; try lia.
  - reflexivity.
  - assert (Hd : (Zpos (digits2_pos b) <= 53)%Z).
    { pose proof (digits2_bounds b) as [Dl _].
      assert (Zpos (digits2_pos b) - 1 < 53)%Z by (apply (Z.pow_lt_mono_r_iff 2); lia).
      lia. }
    destruct (round_integer_exact b Hd) as (mb & -> & _). reflexivity.
  - assert (Hd : (Zpos (digits2_pos a) <= 53)%Z).
    { pose proof (digits2_bounds a) as [Dl _].
      assert (Zpos (digits2_pos a) - 1 < 53)%Z by (apply (Z.pow_lt_mono_r_iff 2); lia).
      lia. }
    destruct (round_integer_exact a Hd) as (ma & -> & _). reflexivity.
  - rewrite whole_compare by lia. unfold Z.ltb.
    destruct (Zpos a ?= Zpos b)%Z; reflexivity.
Qed.

Lemma whole_valid (h w : Z) :
  (0 <= h < 2 ^ 53)%Z -> (0 <= w < 2 ^ 53)%Z ->
  Dark.valid (Some (SF2Prim (round_integer h))) (Some (SF2Prim (round_integer w)))
  = ((40 <? h)%Z && (h <? 260)%Z && (10 <? w)%Z && (w <? 400)%Z)%bool.
Proof.
  intros Hh Hw. unfold Dark.valid, gt, lt, ToNumber, notNull. cbn [andb].
  replace 40 with (SF2Prim (round_integer 40)) by (vm_compute; reflexivity).
  replace 260 with (SF2Prim (round_integer 260)) by (vm_compute; reflexivity).
  replace 10 with (SF2Prim (round_integer 10)) by (vm_compute; reflexivity).
  replace 400 with (SF2Prim (round_integer 400)) by (vm_compute; reflexivity).
  rewrite !whole_ltb by (try assumption; change (2 ^ 53)%Z with 9007199254740992%Z; lia).
  reflexivity.
Qed.

(** X9. With whole numbers typed in both fields (below 2 ^ 53), the
    validation of [onCalculate] is the range check on the integers: a value
    is stored exactly when 40 < h < 260 and 10 < w < 400, and it is the
    formula on the numbers of [h] and [w]; otherwise none is stored.  So on
    both screens, whatever was stored before. *)
Theorem whole_numbers_are_checked_as_integers (h w : Z) :
  (0 <= h < 2 ^ 53)%Z -> (0 <= w < 2 ^ 53)%Z ->
  let H := SF2Prim (round_integer h) in
  let W := SF2Prim (round_integer w) in
  let accepted := ((40 <? h)%Z && (h <? 260)%Z && (10 <? w)%Z && (w <? 400)%Z)%bool in
  (forall b : option number,
      Dark.bmi (fst (Dark.onCalculate
                       {| Dark.heightCm := decimal h; Dark.weightKg := decimal w;
                          Dark.bmi := b |}))
      = if accepted then Some (W / ((H / 100) * (H / 100))) else None)
  /\ (forall b : option number,
      Light.bmi (fst (Light.onCalculate
                        {| Light.heightCm := decimal h; Light.weightKg := decimal w;
                           Light.bmi := b |}))
      = if accepted then Some (W / ((H / 100) * (H / 100))) else None).
Proof.
  intros Hh Hw H W accepted.
  destruct (whole_number_text_is_read_back h Hh) as [Eh _].
  destruct (whole_number_text_is_read_back w Hw) as [Ew _].
  split; intros b.
  - rewrite Dark_onCalculate_bmi. unfold Dark.heightValue, Dark.weightValue.
    cbn [Dark.heightCm Dark.weightKg]. rewrite Eh, Ew, (whole_valid h w Hh Hw).
    reflexivity.
  - rewrite Light_onCalculate_bmi. unfold Light.heightValue, Light.weightValue.
    cbn [Light.heightCm Light.weightKg]. change Light.parseNumber with Dark.parseNumber.
    rewrite Eh, Ew, (whole_valid h w Hh Hw). reflexivity.
Qed.

Lemma whole_numbers_witness :
  Dark.bmi (fst (Dark.onCalculate (dark_state "172" "68"))) = Some (68 / ((172 / 100) * (172 / 100)))
  /\ Light.bmi (fst (Light.onCalculate (light_state "260" "68"))) = None.
Proof.
  exact (conj (proj1 (whole_numbers_are_checked_as_integers 172 68 ltac:(lia) ltac:(lia)) None)
           (proj2 (whole_numbers_are_checked_as_integers 260 68 ltac:(lia) ltac:(lia)) None)).
Defined.

End WholeNumbers.
